(** * OuluWebCams: a shallow embedding of the camera controller

    The repository holds two browser scripts that show traffic-camera
    snapshots of the Oulu region:

    - [js.js], the class [OuluWebCams]: a controller object that fetches the
      municipality polygons and the camera list, filters and sorts the
      cameras, and renders, cycles and refreshes a grid of camera slots;
    - an older jQuery script ([onpageload] / [conditionalRender]) that polls
      the same endpoint every three seconds and shows four cameras at a time.

    Modelling conventions.
    - JavaScript numbers that the scripts only use as integers (indices,
      counts, millisecond time values) are [Z]; [%] is [Z.rem] (the sign of
      the dividend), [Math.floor (a / b)] is [Z.div].  [NaN] arises from
      [parseInt] of the interval selector's value and from invalid dates;
      both are [option Z] with [None] for [NaN].  The options of the
      camera-count selector are taken to hold integers.
    - A [Date] is its time value, [option Z]: [None] is the invalid date.  An
      API timestamp string is represented by the date [new Date] parses from
      it.
    - [Array.prototype.sort] is stable; for a consistent comparator the
      result is the unique stably sorted permutation, computed here by
      insertion from the right.
    - Asynchronous methods are run to completion in program order: the model
      does not interleave the continuation of one call with other handlers.
    - The page (HTML) is not part of the sources; the parts of the DOM the
      controller reads and writes are fields of [Dom].  The status line, CSS
      classes, the modal and the auto-hide timers are not modelled.
    - The geometry library (turf) and the network are external: they are
      fields of records the operations take as arguments. *)

From Stdlib Require Import ZArith QArith Ascii String Lia Permutation Sorted.
From Stdlib Require Import DecimalString DecimalNat.
From stdpp Require Import base gmap strings list sorting pretty.
Close Scope Q_scope.
Local Open Scope Z_scope.

(** ** JavaScript primitives used by the scripts *)

Module JS.

(** [s.includes(sub)] *)
Definition includes (s sub : string) : bool :=
  match String.index 0 sub s with
  | Some _ => true
  | None => false
  end.

(** [s.replace(/_/g, ' ')] *)
Fixpoint replace_underscores (s : string) : string :=
  match s with
  | EmptyString => EmptyString
  | String c s' =>
      String (if Ascii.eqb c "_"%char then " "%char else c)
             (replace_underscores s')
  end.

(** A truthy string is a non-empty one. *)
Definition truthy (s : string) : bool :=
  match s with
  | EmptyString => false
  | String _ _ => true
  end.

(** [a % b] on integers. *)
Definition rem (a b : Z) : Z := Z.rem a b.

(** [arr[i]] for an integer [i]: [undefined] out of range. *)
Definition index {A} (arr : list A) (i : Z) : option A :=
  if i <? 0 then None else arr !! Z.to_nat i.

(** [arr.find(p)] *)
Definition find {A} (p : A -> bool) (arr : list A) : option A :=
  List.find p arr.

Section Sort.
Context {A : Type}.
(** [before x y]: the comparator does not ask for [y] ahead of [x], that
    is [comparefn(x, y) <= 0], a [NaN] result counting as [0]. *)
Variable before : A -> A -> bool.

Fixpoint sort_insert (x : A) (l : list A) : list A :=
  match l with
  | [] => [x]
  | y :: l' => if before x y then x :: l else y :: sort_insert x l'
  end.

(** [arr.sort(comparefn)] *)
Definition sort (l : list A) : list A := foldr sort_insert [] l.
End Sort.

Section SetOf.
Context {A : Type} `{EqDecision A}.

(** Insertion into a [Set]: a value already present keeps its place. *)
Definition set_add (acc : list A) (x : A) : list A :=
  if decide (x ∈ acc) then acc else acc ++ [x].

(** [[...new Set(arr)]]: the distinct values in order of first
    occurrence. *)
Definition spread_set (arr : list A) : list A := foldl set_add [] arr.
End SetOf.

(** Default [arr.sort()] on strings: ascending by code units (bytes, for the
    strings of this model). *)
Definition sort_strings (l : list string) : list string :=
  sort String.leb l.

(** [String(n)] for a non-negative integer and [Number(s)] for a string of
    decimal digits (the empty string is [0]); any other string counts as
    [NaN]. *)
Definition string_of_nat (n : nat) : string :=
  NilZero.string_of_uint (Nat.to_uint n).

Definition to_number (s : string) : option Z :=
  match NilEmpty.uint_of_string s with
  | Some d => Some (Z.of_nat (Nat.of_uint d))
  | None => None
  end.

End JS.

(** ** Data model *)

(** A preset as the API returns it. *)
Record RawPreset := {
  rp_presetId : string;
  rp_presentationName : string;
  rp_imageUrl : string;
  rp_measuredTime : option Z
}.

(** A camera station as the API returns it. *)
Record RawCamera := {
  rc_cameraId : string;
  rc_name : string;
  rc_lat : Q;
  rc_lon : Q;
  rc_presets : list RawPreset
}.

(** A processed camera: one preset with the data of its station. *)
Record Camera := {
  presetId : string;
  presentationName : string;
  imageUrl : string;
  stationName : string;
  cameraId : string;
  lat : Q;
  lon : Q;
  municipality : string;
  measuredTime : option Z;
  age : string
}.

(** The filtering part of [this.config]. *)
Record Config := {
  cameraCount : Z;
  cycling : bool;
  cyclingInterval : Z;
  cyclingMode : string;
  selectedMunicipality : string;
  selectedStation : string;
  dropOldCameras : bool
}.

(** ** Pure operations of [OuluWebCams] *)

Definition fourHours : Z := 4 * 60 * 60 * 1000.

(** [camera.measuredTime > fourHoursAgo] *)
Definition newer_than (t : option Z) (limit : Z) : bool :=
  match t with
  | Some ms => limit <? ms
  | None => false
  end.

(** [b.measuredTime - a.measuredTime] *)
Definition freshness_compare (a b : Camera) : option Z :=
  match measuredTime b, measuredTime a with
  | Some tb, Some ta => Some (tb - ta)
  | _, _ => None
  end.

Definition freshness_before (a b : Camera) : bool :=
  match freshness_compare a b with
  | Some v => v <=? 0
  | None => true
  end.

(** [filterCameras(cameras)], with [Date.now()] passed as [now]. *)
Definition filterCameras (config : Config) (now : Z) (cameras : list Camera)
  : list Camera :=
  let filtered := cameras in
  let filtered :=
    if dropOldCameras config then
      let fourHoursAgo := now - fourHours in
      List.filter (fun camera => newer_than (measuredTime camera) fourHoursAgo)
                  filtered
    else filtered in
  JS.sort freshness_before filtered.

(** [getFilteredCameras()] over [this.cameras] and [this.config]. *)
Definition getFilteredCameras (config : Config) (cameras : list Camera)
  : list Camera :=
  let filtered := cameras in
  if String.eqb (cyclingMode config) "municipality" then
    if JS.truthy (selectedMunicipality config) then
      List.filter
        (fun c => String.eqb (municipality c) (selectedMunicipality config))
        filtered
    else filtered
  else if String.eqb (cyclingMode config) "station" then
    if JS.truthy (selectedStation config) then
      List.filter
        (fun c => String.eqb (stationName c) (selectedStation config))
        filtered
    else filtered
  else filtered.

Definition standardGridSizes : list Z := [1; 2; 4; 6; 8; 12; 16].

(** [getOptimalGridSize(cameraCount)] *)
Definition getOptimalGridSize (cameraCount : Z) : Z :=
  match List.find (fun gridSize => cameraCount <=? gridSize)
                  standardGridSizes with
  | Some gridSize => gridSize
  | None => 16
  end.

(** [getImageAge(timestamp)] *)
Definition getImageAge (now : Z) (timestamp : option Z) : string :=
  match timestamp with
  | None => "NaNm ago"
  | Some imageTime =>
      let diffMs := now - imageTime in
      let diffHours := diffMs / (1000 * 60 * 60) in
      let diffMins := JS.rem diffMs (1000 * 60 * 60) / (1000 * 60) in
      if 0 <? diffHours
      then pretty diffHours +:+ "h " +:+ pretty diffMins +:+ "m ago"
      else pretty diffMins +:+ "m ago"
  end.

(** ** Municipality lookup *)

(** GeoJSON as the municipality file holds it.  A position is the array
    [[lon, lat]]; [properties] and [geometry] may be [null]; [nimi] is the
    municipality's name, [None] when the property is missing or [null]. *)
Definition Position : Type := list Q.

Inductive Geometry :=
| Polygon (coordinates : list (list Position))
| MultiPolygon (coordinates : list (list (list Position)))
| OtherGeometry.

Record Properties := { nimi : option string }.

Record Feature := {
  geometry : option Geometry;
  properties : option Properties
}.

Record FeatureCollection := { features : list Feature }.

(** What the helpers of the geometry library build. *)
Inductive TurfFeature :=
| TurfPoint (coordinates : Position)
| TurfPolygon (coordinates : list (list Position))
| TurfMultiPolygon (coordinates : list (list (list Position))).

(** The geometry library.  Each function may throw: [None]. *)
Record Turf := {
  point : Position -> option TurfFeature;
  polygon : list (list Position) -> option TurfFeature;
  multiPolygon : list (list (list Position)) -> option TurfFeature;
  booleanPointInPolygon : TurfFeature -> TurfFeature -> option bool
}.

(** [feature.properties.nimi || 'Unknown'], which throws on [null]
    properties. *)
Definition nimi_or_unknown (feature : Feature) : option string :=
  props ← properties feature;
  match nimi props with
  | Some name => if JS.truthy name then Some name else Some "Unknown"
  | None => Some "Unknown"
  end.

(** The [for ... of] loop of [getMunicipalityForCamera].  The outer option is
    the exception ([None]: something threw), the inner one the [return]
    inside the loop ([None]: the loop ran to its end). *)
Fixpoint scan_features (turf : Turf) (pt : TurfFeature) (fs : list Feature)
  : option (option string) :=
  match fs with
  | [] => Some None
  | feature :: rest =>
      match geometry feature with
      | Some (Polygon coordinates) =>
          poly ← polygon turf coordinates;
          inside ← booleanPointInPolygon turf pt poly;
          if (inside : bool)
          then name ← nimi_or_unknown feature; Some (Some name)
          else scan_features turf pt rest
      | Some (MultiPolygon coordinates) =>
          multi ← multiPolygon turf coordinates;
          inside ← booleanPointInPolygon turf pt multi;
          if (inside : bool)
          then name ← nimi_or_unknown feature; Some (Some name)
          else scan_features turf pt rest
      | _ => scan_features turf pt rest
      end
  end.

(** [getMunicipalityForCamera(lat, lon)] *)
Definition getMunicipalityForCamera (turf : Turf)
    (municipalityData : option FeatureCollection) (lat lon : Q) : string :=
  match municipalityData with
  | None => "Unknown"
  | Some data =>
      let attempt :=
        pt ← point turf [lon; lat];
        scan_features turf pt (features data) in
      match attempt with
      | Some (Some name) => name
      | Some None => "Unknown"
      | None => "Unknown"
      end
  end.

(** ** The controller, the page and the browser *)

(** A child [camera-i] of the grid: a placeholder, or a camera container that
    still shows its spinner, shows a camera, or shows the error message. *)
Inductive Slot :=
| Placeholder
| Loading
| Showing (camera : Camera)
| Failed.

(** The part of the page the controller works on.  Selector options are
    (value, text) pairs; the interval selector's options are the integers
    [parseInt] reads from their values, each with its [disabled] flag;
    [intervalValue] is [parseInt(intervalSelect.value)]. *)
Record Dom := {
  cameraGrid : gmap Z Slot;
  municipalityOptions : list (string * string);
  stationOptions : list (string * string);
  intervalOptions : list (Z * bool);
  intervalValue : option Z;
  rateLimitWarning : bool
}.

Inductive Request :=
| Fetch (method url : string)
| ImageLoad (url : string).

(** What survives the controller object, and the requests sent so far (the
    oldest first). *)
Record Browser := {
  sessionStorage : gmap string string;
  localStorage : gmap string string;
  requests : list Request
}.

Record Controller := {
  cameras : list Camera;
  allCameras : list Camera;
  municipalityData : option FeatureCollection;
  currentImages : gmap Z Camera;
  currentCycleIndex : Z;
  lockedCameras : gset Z;
  lastFullUpdate : option Z;
  isMobile : bool;
  started : bool;
  config : Config
}.

Record World := {
  ctl : Controller;
  dom : Dom;
  browser : Browser
}.

(** The environment of one handler run: the geometry library if the page
    loaded it, what [detectMobile] finds, the clock, and how the network
    answers.  Answers are indexed
    by the number of requests sent before. *)
Record Env := {
  turf_global : option Turf;
  detect_mobile : bool;
  date_now : Z;
  geojson_response : nat -> option FeatureCollection;
  cameras_response : nat -> option (list RawCamera);
  image_loads : nat -> string -> bool
}.

(** The constructor's state. *)
Definition initial_config : Config :=
  {| cameraCount := 4; cycling := false; cyclingInterval := 5000;
     cyclingMode := "all"; selectedMunicipality := EmptyString;
     selectedStation := EmptyString; dropOldCameras := true |}.

Definition new_controller (mobile : bool) : Controller :=
  {| cameras := []; allCameras := []; municipalityData := None;
     currentImages := ∅; currentCycleIndex := 0; lockedCameras := ∅;
     lastFullUpdate := None; isMobile := mobile; started := false;
     config := initial_config |}.

(** *** Field updates *)

Definition with_config (f : Config -> Config) (w : World) : World :=
  let c := ctl w in
  {| ctl := {| cameras := cameras c; allCameras := allCameras c;
               municipalityData := municipalityData c;
               currentImages := currentImages c;
               currentCycleIndex := currentCycleIndex c;
               lockedCameras := lockedCameras c;
               lastFullUpdate := lastFullUpdate c; isMobile := isMobile c;
               started := started c; config := f (config c) |};
     dom := dom w; browser := browser w |}.

Definition with_ctl (f : Controller -> Controller) (w : World) : World :=
  {| ctl := f (ctl w); dom := dom w; browser := browser w |}.

Definition with_dom (f : Dom -> Dom) (w : World) : World :=
  {| ctl := ctl w; dom := f (dom w); browser := browser w |}.

Definition set_cameraCount (v : Z) (c : Config) : Config :=
  {| cameraCount := v; cycling := cycling c;
     cyclingInterval := cyclingInterval c; cyclingMode := cyclingMode c;
     selectedMunicipality := selectedMunicipality c;
     selectedStation := selectedStation c;
     dropOldCameras := dropOldCameras c |}.

Definition set_cycling (v : bool) (c : Config) : Config :=
  {| cameraCount := cameraCount c; cycling := v;
     cyclingInterval := cyclingInterval c; cyclingMode := cyclingMode c;
     selectedMunicipality := selectedMunicipality c;
     selectedStation := selectedStation c;
     dropOldCameras := dropOldCameras c |}.

Definition set_cyclingInterval (v : Z) (c : Config) : Config :=
  {| cameraCount := cameraCount c; cycling := cycling c;
     cyclingInterval := v; cyclingMode := cyclingMode c;
     selectedMunicipality := selectedMunicipality c;
     selectedStation := selectedStation c;
     dropOldCameras := dropOldCameras c |}.

Definition set_cyclingMode (v : string) (c : Config) : Config :=
  {| cameraCount := cameraCount c; cycling := cycling c;
     cyclingInterval := cyclingInterval c; cyclingMode := v;
     selectedMunicipality := selectedMunicipality c;
     selectedStation := selectedStation c;
     dropOldCameras := dropOldCameras c |}.

Definition set_selectedMunicipality (v : string) (c : Config) : Config :=
  {| cameraCount := cameraCount c; cycling := cycling c;
     cyclingInterval := cyclingInterval c; cyclingMode := cyclingMode c;
     selectedMunicipality := v; selectedStation := selectedStation c;
     dropOldCameras := dropOldCameras c |}.

Definition set_selectedStation (v : string) (c : Config) : Config :=
  {| cameraCount := cameraCount c; cycling := cycling c;
     cyclingInterval := cyclingInterval c; cyclingMode := cyclingMode c;
     selectedMunicipality := selectedMunicipality c; selectedStation := v;
     dropOldCameras := dropOldCameras c |}.

Definition set_dropOldCameras (v : bool) (c : Config) : Config :=
  {| cameraCount := cameraCount c; cycling := cycling c;
     cyclingInterval := cyclingInterval c; cyclingMode := cyclingMode c;
     selectedMunicipality := selectedMunicipality c;
     selectedStation := selectedStation c; dropOldCameras := v |}.

Definition set_cameras (v : list Camera) (c : Controller) : Controller :=
  {| cameras := v; allCameras := allCameras c;
     municipalityData := municipalityData c;
     currentImages := currentImages c;
     currentCycleIndex := currentCycleIndex c;
     lockedCameras := lockedCameras c; lastFullUpdate := lastFullUpdate c;
     isMobile := isMobile c; started := started c; config := config c |}.

Definition set_allCameras (v : list Camera) (c : Controller) : Controller :=
  {| cameras := cameras c; allCameras := v;
     municipalityData := municipalityData c;
     currentImages := currentImages c;
     currentCycleIndex := currentCycleIndex c;
     lockedCameras := lockedCameras c; lastFullUpdate := lastFullUpdate c;
     isMobile := isMobile c; started := started c; config := config c |}.

Definition set_municipalityData (v : option FeatureCollection)
    (c : Controller) : Controller :=
  {| cameras := cameras c; allCameras := allCameras c;
     municipalityData := v; currentImages := currentImages c;
     currentCycleIndex := currentCycleIndex c;
     lockedCameras := lockedCameras c; lastFullUpdate := lastFullUpdate c;
     isMobile := isMobile c; started := started c; config := config c |}.

Definition set_currentImages (v : gmap Z Camera) (c : Controller)
  : Controller :=
  {| cameras := cameras c; allCameras := allCameras c;
     municipalityData := municipalityData c; currentImages := v;
     currentCycleIndex := currentCycleIndex c;
     lockedCameras := lockedCameras c; lastFullUpdate := lastFullUpdate c;
     isMobile := isMobile c; started := started c; config := config c |}.

Definition set_currentCycleIndex (v : Z) (c : Controller) : Controller :=
  {| cameras := cameras c; allCameras := allCameras c;
     municipalityData := municipalityData c;
     currentImages := currentImages c; currentCycleIndex := v;
     lockedCameras := lockedCameras c; lastFullUpdate := lastFullUpdate c;
     isMobile := isMobile c; started := started c; config := config c |}.

Definition set_lockedCameras (v : gset Z) (c : Controller) : Controller :=
  {| cameras := cameras c; allCameras := allCameras c;
     municipalityData := municipalityData c;
     currentImages := currentImages c;
     currentCycleIndex := currentCycleIndex c; lockedCameras := v;
     lastFullUpdate := lastFullUpdate c; isMobile := isMobile c;
     started := started c; config := config c |}.

Definition set_lastFullUpdate (v : option Z) (c : Controller) : Controller :=
  {| cameras := cameras c; allCameras := allCameras c;
     municipalityData := municipalityData c;
     currentImages := currentImages c;
     currentCycleIndex := currentCycleIndex c;
     lockedCameras := lockedCameras c; lastFullUpdate := v;
     isMobile := isMobile c; started := started c; config := config c |}.

Definition set_started (v : bool) (c : Controller) : Controller :=
  {| cameras := cameras c; allCameras := allCameras c;
     municipalityData := municipalityData c;
     currentImages := currentImages c;
     currentCycleIndex := currentCycleIndex c;
     lockedCameras := lockedCameras c; lastFullUpdate := lastFullUpdate c;
     isMobile := isMobile c; started := v; config := config c |}.

Definition set_cameraGrid (v : gmap Z Slot) (d : Dom) : Dom :=
  {| cameraGrid := v; municipalityOptions := municipalityOptions d;
     stationOptions := stationOptions d;
     intervalOptions := intervalOptions d;
     intervalValue := intervalValue d;
     rateLimitWarning := rateLimitWarning d |}.

Definition set_selectorOptions (ms ss : list (string * string)) (d : Dom)
  : Dom :=
  {| cameraGrid := cameraGrid d; municipalityOptions := ms;
     stationOptions := ss; intervalOptions := intervalOptions d;
     intervalValue := intervalValue d;
     rateLimitWarning := rateLimitWarning d |}.

Definition set_interval (opts : list (Z * bool)) (v : option Z)
    (warning : bool) (d : Dom) : Dom :=
  {| cameraGrid := cameraGrid d;
     municipalityOptions := municipalityOptions d;
     stationOptions := stationOptions d; intervalOptions := opts;
     intervalValue := v; rateLimitWarning := warning |}.

Definition send (r : Request) (w : World) : World :=
  {| ctl := ctl w; dom := dom w;
     browser := {| sessionStorage := sessionStorage (browser w);
                   localStorage := localStorage (browser w);
                   requests := requests (browser w) ++ [r] |} |}.

Definition sent (w : World) : nat := length (requests (browser w)).

(** *** Effects: a state monad over [World] with exceptions *)

(** A computation changes the world and returns a value, or throws
    ([None]); the world at the throw is kept. *)
Definition Eff (A : Type) : Type := World -> World * option A.

Definition eff_ret {A} (a : A) : Eff A := fun w => (w, Some a).

Definition eff_throw {A} : Eff A := fun w => (w, None).

Definition eff_bind {A B} (m : Eff A) (k : A -> Eff B) : Eff B :=
  fun w =>
    match m w with
    | (w', Some a) => k a w'
    | (w', None) => (w', None)
    end.

(** A method without a result and without exceptions. *)
Definition eff_do (f : World -> World) : Eff unit := fun w => (f w, Some tt).

(** [try { m } catch { }]: the world the body or the throw leaves. *)
Definition eff_catch {A} (m : Eff A) : World -> World := fun w => fst (m w).

Declare Scope eff_scope.
Delimit Scope eff_scope with eff.
Notation "x <- m ;; k" := (eff_bind m (fun x => k))
  (at level 100, m at next level, right associativity) : eff_scope.
Notation "m ;; k" := (eff_bind m (fun _ => k))
  (at level 100, right associativity) : eff_scope.

(** ** Stateful operations of [OuluWebCams] *)

(** [populateSelectors()] *)
Definition populateSelectors (w : World) : World :=
  let municipalities :=
    JS.sort_strings (JS.spread_set (map municipality (cameras (ctl w)))) in
  let stations :=
    JS.sort_strings (JS.spread_set (map stationName (cameras (ctl w)))) in
  with_dom
    (set_selectorOptions
       ((EmptyString, "All Municipalities")
          :: map (fun m => (m, m)) municipalities)
       ((EmptyString, "All Stations")
          :: map (fun s => (s, JS.replace_underscores s)) stations))
    w.

(** [this.getFilteredCameras()] on the current state. *)
Definition availableCameras (w : World) : list Camera :=
  getFilteredCameras (config (ctl w)) (cameras (ctl w)).

(** [loadSingleCamera(containerIndex, camera)].  A missing container or a
    placeholder returns at once.  A container that shows the error message
    has lost its image and spinner elements, so the body throws before any
    request and the error message is written again. *)
Definition loadSingleCamera (env : Env) (containerIndex : Z) (camera : Camera)
    (w : World) : World :=
  match cameraGrid (dom w) !! containerIndex with
  | None | Some Placeholder => w
  | Some Failed => w
  | Some Loading | Some (Showing _) =>
      let answered := image_loads env (sent w) (imageUrl camera) in
      let w := send (ImageLoad (imageUrl camera)) w in
      if answered then
        let w :=
          with_dom
            (fun d => set_cameraGrid
                        (<[containerIndex := Showing camera]> (cameraGrid d)) d)
            w in
        with_ctl
          (fun c => set_currentImages
                      (<[containerIndex := camera]> (currentImages c)) c)
          w
      else
        with_dom
          (fun d => set_cameraGrid
                      (<[containerIndex := Failed]> (cameraGrid d)) d)
          w
  end.

(** One turn of the loop of [loadCameraImages]. *)
Definition loadCameraImages_slot (env : Env) (available : list Camera)
    (w : World) (i : Z) : World :=
  if bool_decide (i ∈ lockedCameras (ctl w))
     && bool_decide (is_Some (currentImages (ctl w) !! i))
  then w
  else
    let cameraIndex :=
      JS.rem (currentCycleIndex (ctl w) + i) (Z.of_nat (length available)) in
    match JS.index available cameraIndex with
    | Some camera => loadSingleCamera env i camera w
    | None => w
    end.

(** [loadCameraImages()] *)
Definition loadCameraImages (env : Env) (w : World) : World :=
  let available := availableCameras w in
  let actualCameraCount :=
    Z.min (cameraCount (config (ctl w))) (Z.of_nat (length available)) in
  foldl (loadCameraImages_slot env available) w (seqZ 0 actualCameraCount).

(** [renderCameras()] *)
Definition renderCameras (env : Env) (w : World) : World :=
  let available := availableCameras w in
  let requestedCount := cameraCount (config (ctl w)) in
  let actualCameraCount :=
    Z.min requestedCount (Z.of_nat (length available)) in
  if Z.of_nat (length available) =? 0 then
    with_dom (set_cameraGrid ∅) w
  else
    let optimalGridSize := getOptimalGridSize actualCameraCount in
    let containers :=
      map (fun i => (i, Loading)) (seqZ 0 actualCameraCount) in
    let placeholders :=
      map (fun i => (i, Placeholder))
          (seqZ actualCameraCount (optimalGridSize - actualCameraCount)) in
    let w :=
      with_dom (set_cameraGrid (list_to_map (containers ++ placeholders))) w in
    loadCameraImages env w.

(** The object [processCameras] builds for one preset. *)
Definition processedCamera (now : Z) (municipality : string)
    (camera : RawCamera) (preset : RawPreset) : Camera :=
  {| presetId := rp_presetId preset;
     presentationName := rp_presentationName preset;
     imageUrl := rp_imageUrl preset;
     stationName := rc_name camera;
     cameraId := rc_cameraId camera;
     lat := rc_lat camera;
     lon := rc_lon camera;
     municipality := municipality;
     measuredTime := rp_measuredTime preset;
     age := getImageAge now (rp_measuredTime preset) |}.

Definition processedCameras (turf : Turf) (now : Z)
    (data : option FeatureCollection) (rawCameras : list RawCamera)
  : list Camera :=
  flat_map
    (fun camera =>
       let municipality :=
         getMunicipalityForCamera turf data (rc_lat camera) (rc_lon camera) in
       map (processedCamera now municipality camera) (rc_presets camera))
    rawCameras.

(** [processCameras(rawCameras)] *)
Definition processCameras (env : Env) (turf : Turf)
    (rawCameras : list RawCamera) (w : World) : World :=
  let processed :=
    processedCameras turf (date_now env) (municipalityData (ctl w))
                     rawCameras in
  let w := with_ctl (set_allCameras processed) w in
  let w :=
    with_ctl
      (set_cameras (filterCameras (config (ctl w)) (date_now env) processed))
      w in
  let w := populateSelectors w in
  renderCameras env w.

(** [toggleCameraLock(index)].  A container that shows the error message
    has lost its lock button, and the method throws before it changes the
    set. *)
Definition toggleCameraLock (index : Z) (w : World) : World :=
  match cameraGrid (dom w) !! index with
  | None | Some Placeholder => w
  | Some Failed => w
  | Some Loading | Some (Showing _) =>
      if bool_decide (index ∈ lockedCameras (ctl w))
      then with_ctl
             (fun c => set_lockedCameras (lockedCameras c ∖ {[index]}) c) w
      else with_ctl
             (fun c => set_lockedCameras (lockedCameras c ∪ {[index]}) c) w
  end.

(** [startCycling()] and [stopCycling()]; the timer itself is the
    [CycleTick] event below, which fires while [cycling] is set. *)
Definition stopCycling (w : World) : World :=
  with_config (set_cycling false) w.

Definition startCycling (w : World) : World :=
  with_config (set_cycling true) (stopCycling w).

(** [cycleCameras()] *)
Definition cycleCameras (env : Env) (w : World) : World :=
  let available := availableCameras w in
  if Z.of_nat (length available) =? 0 then w
  else
    let w :=
      with_ctl
        (fun c =>
           set_currentCycleIndex
             (JS.rem (currentCycleIndex c + cameraCount (config c))
                     (Z.of_nat (length available)))
             c)
        w in
    loadCameraImages env w.

(** One turn of the loop of [updateCameraImages]. *)
Definition updateCameraImages_slot (env : Env) (w : World) (i : Z) : World :=
  match cameraGrid (dom w) !! i with
  | None | Some Placeholder => w
  | Some _ =>
      match currentImages (ctl w) !! i with
      | Some currentCamera =>
          if negb (bool_decide (i ∈ lockedCameras (ctl w))) then
            match JS.find
                    (fun c => String.eqb (presetId c) (presetId currentCamera))
                    (cameras (ctl w)) with
            | Some updatedCamera => loadSingleCamera env i updatedCamera w
            | None => w
            end
          else w
      | None => w
      end
  end.

(** [updateCameraImages()] *)
Definition updateCameraImages (env : Env) (w : World) : World :=
  foldl (updateCameraImages_slot env) w
        (seqZ 0 (cameraCount (config (ctl w)))).

(** [refreshCurrentImages()]: it reloads a slot only when the slot's entry
    of [currentImages] has a non-empty [presets] array; the entries are
    processed cameras, which have no [presets], so no slot is reloaded. *)
Definition refreshCurrentImages (w : World) : World := w.

(** [minCycleTimes] *)
Definition minCycleTimes : gmap Z Z :=
  {[ 1 := 2000; 2 := 3000; 4 := 5000; 6 := 8000; 8 := 10000;
     12 := 15000; 16 := 20000 ]}.

(** [minCycleTimes[cameraCount] || 10000] *)
Definition minCycleTime (cameraCount : Z) : Z :=
  match minCycleTimes !! cameraCount with
  | Some t => if t =? 0 then 10000 else t
  | None => 10000
  end.

(** [a < b] where [a] may be [NaN]. *)
Definition nan_lt (a : option Z) (b : Z) : bool :=
  match a with
  | Some v => v <? b
  | None => false
  end.

(** [intervalSelect.value = v]: the option with that value becomes the
    selected one; without such an option nothing is selected and the value
    reads as the empty string. *)
Definition select_value (opts : list (Z * bool)) (v : Z) : option Z :=
  if existsb (fun o => fst o =? v) opts then Some v else None.

(** [updateCycleTimeOptions()] *)
Definition updateCycleTimeOptions (w : World) : World :=
  let cameraCount := cameraCount (config (ctl w)) in
  let minTime := minCycleTime cameraCount in
  let currentValue := intervalValue (dom w) in
  let options :=
    map (fun o => (fst o, fst o <? minTime)) (intervalOptions (dom w)) in
  if nan_lt currentValue minTime then
    let w :=
      with_dom (set_interval options (select_value options minTime) true) w in
    with_config (set_cyclingInterval minTime) w
  else
    with_dom (set_interval options currentValue false) w.

(** [setupMobileRestrictions()] *)
Definition setupMobileRestrictions (env : Env) (w : World) : World :=
  if negb (isMobile (ctl w)) then w
  else if 8 <? cameraCount (config (ctl w)) then
    renderCameras env (with_config (set_cameraCount 8) w)
  else w.

Definition geojson_url : string := "finnish-municipalities-wgs84.geojson".
Definition api_url : string := "https://api.oulunliikenne.fi/proxy/graphql".

(** [loadMunicipalityData()]: a failed fetch, a response that is not ok and
    a body that is not a feature collection all throw. *)
Definition loadMunicipalityData (env : Env) : Eff unit :=
  fun w =>
    let answer := geojson_response env (sent w) in
    let w := send (Fetch "GET" geojson_url) w in
    match answer with
    | Some data => (with_ctl (set_municipalityData (Some data)) w, Some tt)
    | None => (w, None)
    end.

(** [loadCameras()] *)
Definition loadCameras (env : Env) (turf : Turf) : Eff unit :=
  fun w =>
    let answer := cameras_response env (sent w) in
    let w := send (Fetch "POST" api_url) w in
    match answer with
    | Some rawCameras =>
        let w := processCameras env turf rawCameras w in
        (with_ctl (set_lastFullUpdate (Some (date_now env))) w, Some tt)
    | None => (w, None)
    end.

(** [init()].  [started] records that the listeners and the periodic timers
    are installed. *)
Definition init (env : Env) (w : World) : World :=
  match turf_global env with
  | None => w
  | Some turf =>
      eff_catch
        (loadMunicipalityData env ;;
         loadCameras env turf ;;
         eff_do (with_ctl (set_started true)) ;;
         eff_do (setupMobileRestrictions env))%eff
        w
  end.

(** ** Events: the page load, the timers and the listeners *)

Inductive Event :=
| PageLoad
| CycleTick
| UpdateTick
| ReloadTick
| RefreshTick
| CameraCountChange (value : Z)
| CyclingToggleClick
| CyclingIntervalChange (value : Z)
| CyclingModeChange (value : string)
| MunicipalityChange (value : string)
| StationChange (value : string)
| DropOldChange (checked : bool)
| LockClick (index : Z)
| Resize.

(** A geometry library that is not there: every use throws. *)
Definition undefined_turf : Turf :=
  {| point := fun _ => None; polygon := fun _ => None;
     multiPolygon := fun _ => None;
     booleanPointInPolygon := fun _ _ => None |}.

(** The handlers [setupEventListeners] installs. *)
Definition listener (env : Env) (ev : Event) (w : World) : World :=
  match ev with
  | CameraCountChange value =>
      let w := with_config (set_cameraCount value) w in
      let w := updateCycleTimeOptions w in
      renderCameras env w
  | CyclingToggleClick =>
      if cycling (config (ctl w)) then stopCycling w else startCycling w
  | CyclingIntervalChange value =>
      let w :=
        with_dom
          (fun d => set_interval (intervalOptions d) (Some value)
                                 (rateLimitWarning d) d)
          w in
      let w := with_config (set_cyclingInterval value) w in
      if cycling (config (ctl w)) then startCycling w else w
  | CyclingModeChange value =>
      renderCameras env (with_config (set_cyclingMode value) w)
  | MunicipalityChange value =>
      renderCameras env (with_config (set_selectedMunicipality value) w)
  | StationChange value =>
      renderCameras env (with_config (set_selectedStation value) w)
  | DropOldChange checked =>
      let w := with_config (set_dropOldCameras checked) w in
      let w :=
        with_ctl
          (fun c => set_cameras
                      (filterCameras (config c) (date_now env) (allCameras c))
                      c)
          w in
      renderCameras env w
  | Resize =>
      let wasMobile := isMobile (ctl w) in
      let w :=
        with_ctl
          (fun c =>
             {| cameras := cameras c; allCameras := allCameras c;
                municipalityData := municipalityData c;
                currentImages := currentImages c;
                currentCycleIndex := currentCycleIndex c;
                lockedCameras := lockedCameras c;
                lastFullUpdate := lastFullUpdate c;
                isMobile := detect_mobile env; started := started c;
                config := config c |})
          w in
      if Bool.eqb wasMobile (isMobile (ctl w)) then w
      else renderCameras env (setupMobileRestrictions env w)
  | _ => w
  end.

(** What one event does to the world.  The page load builds the controller
    and runs [init], on the page as the HTML gives it; the cycling timer
    exists while [cycling] is set; the other timers and the listeners exist
    once [init] has installed them; the lock buttons belong to the
    containers. *)
Definition step (env : Env) (ev : Event) (w : World) : World :=
  match ev with
  | PageLoad =>
      init env (with_ctl (fun _ => new_controller (detect_mobile env)) w)
  | CycleTick =>
      if cycling (config (ctl w)) then cycleCameras env w else w
  | UpdateTick =>
      if started (ctl w) then updateCameraImages env w else w
  | ReloadTick =>
      if started (ctl w) then
        eff_catch
          (loadCameras env (default undefined_turf (turf_global env))) w
      else w
  | RefreshTick =>
      if started (ctl w) then refreshCurrentImages w else w
  | LockClick index => toggleCameraLock index w
  | _ => if started (ctl w) then listener env ev w else w
  end.

Definition run (env : Env) (evs : list Event) (w : World) : World :=
  foldl (fun w ev => step env ev w) w evs.

(** ** The jQuery script *)

Module JQuery.

(** The page of the jQuery script: the four tiles [#1] .. [#4], each with
    the preset it shows, and the browser. *)
Record Page := {
  tiles : gmap Z RawPreset;
  page_browser : Browser
}.

(** The [forEach] that splices the array it walks: removing the element at
    the current index moves the next element into it, and the walk goes on
    at the index after, so the element that follows a removed one is not
    looked at. *)
Fixpoint remove_YliIi (l : list RawCamera) : list RawCamera :=
  match l with
  | [] => []
  | element :: rest =>
      if JS.includes (rc_name element) "Yli-Ii" then
        match rest with
        | [] => []
        | skipped :: rest' => skipped :: remove_YliIi rest'
        end
      else element :: remove_YliIi rest
  end.

Definition camerasInOulu (cameraArray : list RawCamera) : list RawCamera :=
  remove_YliIi
    (List.filter
       (fun element =>
          JS.includes (rc_name element) "_Oulu_"
          || JS.includes (rc_name element) "-")
       cameraArray).

Definition camerasInOulu_Clean (cameraArray : list RawCamera)
  : list RawPreset :=
  flat_map rc_presets (camerasInOulu cameraArray).

(** [timeDiff / 3600000] *)
Definition diffHours (now : Z) (date : Z) : Q :=
  (inject_Z (now - date) / inject_Z 3600000)%Q.

(** [diffHours < 4], false for an invalid date. *)
Definition recent (now : Z) (measured : option Z) : bool :=
  match measured with
  | Some date => negb (Qle_bool (inject_Z 4) (diffHours now date))
  | None => false
  end.

Definition noOld (now : Z) (clean : list RawPreset) : list RawPreset :=
  List.filter (fun element => recent now (rp_measuredTime element)) clean.

Definition camerasInOulu_noOld (now : Z) (cameraArray : list RawCamera)
  : list RawPreset :=
  noOld now (camerasInOulu_Clean cameraArray).

(** [sessionStorage.setItem(key, value)] *)
Definition setItem (key value : string) (p : Page) : Page :=
  {| tiles := tiles p;
     page_browser :=
       {| sessionStorage := <[key := value]> (sessionStorage (page_browser p));
          localStorage := localStorage (page_browser p);
          requests := requests (page_browser p) |} |}.

(** The inner loop over [t = 1 .. 4] from index [i]; reading a field of a
    missing element throws and ends the handler. *)
Fixpoint show_tiles (shown : list RawPreset) (ts : list Z) (i : Z) (p : Page)
  : Page * bool :=
  match ts with
  | [] => (p, true)
  | t :: ts' =>
      match JS.index shown i with
      | Some camera =>
          show_tiles shown ts' (i + 1)
            {| tiles := <[t := camera]> (tiles p);
               page_browser := page_browser p |}
      | None => (p, false)
      end
  end.

(** The outer loop: [i] starts at [startNum] and, the inner loop having
    added four, goes up by eight a turn while it is below [endNum]. *)
Fixpoint show_windows (shown : list RawPreset) (starts : list Z) (p : Page)
  : Page :=
  match starts with
  | [] => p
  | i :: starts' =>
      match show_tiles shown [1; 2; 3; 4] i p with
      | (p', true) => show_windows shown starts' p'
      | (p', false) => p'
      end
  end.

(** The [success] handler of [conditionalRender(startNum, endNum)]. *)
Definition success (now : Z) (cameraArray : list RawCamera)
    (startNum endNum : Z) (p : Page) : Page :=
  let shown := camerasInOulu_noOld now cameraArray in
  let p := setItem "camerasInOulu" (JS.string_of_nat (length shown)) p in
  let starts :=
    map (fun k => startNum + 8 * k) (seqZ 0 ((endNum - startNum + 7) / 8)) in
  show_windows shown starts p.

(** [conditionalRender(startNum, endNum)]: the request, and the handler when
    the answer arrives. *)
Definition conditionalRender (env : Env) (startNum endNum : Z) (p : Page)
  : Page :=
  let answer :=
    cameras_response env (length (requests (page_browser p))) in
  let p :=
    {| tiles := tiles p;
       page_browser :=
         {| sessionStorage := sessionStorage (page_browser p);
            localStorage := localStorage (page_browser p);
            requests := requests (page_browser p) ++ [Fetch "POST" api_url]
         |} |} in
  match answer with
  | Some cameraArray => success (date_now env) cameraArray startNum endNum p
  | None => p
  end.

(** [sessionStorage.getItem("camerasInOulu") <= end]: [null] counts as [0],
    a string as the number it spells. *)
Definition stored_le (stored : option string) (end_ : Z) : bool :=
  match stored with
  | None => 0 <=? end_
  | Some s =>
      match JS.to_number s with
      | Some n => n <=? end_
      | None => false
      end
  end.

(** The window one turn of the loop of [onpageload] renders. *)
Definition window (stored : option string) (start end_ : Z) : Z * Z :=
  if stored_le stored end_ then (0, 4) else (start, end_).

(** One turn of [while (true)]: the state is [(start, end)] and the page. *)
Definition onpageload_turn (env : Env) (st : Z * Z * Page) : Z * Z * Page :=
  let '(start, end_, p) := st in
  let '(start, end_) :=
    window (sessionStorage (page_browser p) !! "camerasInOulu") start end_ in
  let p := conditionalRender env start end_ p in
  (end_, end_ + 4, p).

End JQuery.

(** ** Notions the properties are stated with *)

(** The age [now - t] of a timestamp is strictly below four hours. *)
Definition age_below_4h (now : Z) (t : option Z) : bool :=
  match t with
  | Some ms => now - ms <? fourHours
  | None => false
  end.

(** [a] is at least as new as [b]. *)
Definition newest_first (a b : Camera) : Prop :=
  match measuredTime a, measuredTime b with
  | Some ta, Some tb => tb <= ta
  | _, _ => False
  end.

(** ** Sample data *)

Definition sample_camera (id station place : string) (t : option Z)
  : Camera :=
  {| presetId := id; presentationName := "View"; imageUrl := "img/" +:+ id;
     stationName := station; cameraId := "C1"; lat := (65 # 1)%Q; lon := (51 # 2)%Q;
     municipality := place; measuredTime := t; age := EmptyString |}.

Definition sample_now : Z := 1700000000000.

(** Five hours old, one hour old, not a date, ten minutes old. *)
Definition sample_cameras : list Camera :=
  [ sample_camera "P1" "Oulu_Keskusta" "Oulu" (Some (sample_now - 18000000));
    sample_camera "P2" "Oulu_Keskusta" "Oulu" (Some (sample_now - 3600000));
    sample_camera "P3" "Kempele_Vt4" "Kempele" None;
    sample_camera "P4" "Kempele_Vt4" "Kempele" (Some (sample_now - 600000)) ].

(** What the geometry library says about a feature and a point: it
    contains the point, it does not (features without a polygon are not
    asked), or the library throws on it. *)
Definition contains (turf : Turf) (pt : TurfFeature) (f : Feature) : Prop :=
  (exists cs poly,
      geometry f = Some (Polygon cs) ∧ polygon turf cs = Some poly
      ∧ booleanPointInPolygon turf pt poly = Some true)
  ∨ (exists cs multi,
      geometry f = Some (MultiPolygon cs) ∧ multiPolygon turf cs = Some multi
      ∧ booleanPointInPolygon turf pt multi = Some true).

Definition misses (turf : Turf) (pt : TurfFeature) (f : Feature) : Prop :=
  geometry f = None
  ∨ geometry f = Some OtherGeometry
  ∨ (exists cs poly,
      geometry f = Some (Polygon cs) ∧ polygon turf cs = Some poly
      ∧ booleanPointInPolygon turf pt poly = Some false)
  ∨ (exists cs multi,
      geometry f = Some (MultiPolygon cs) ∧ multiPolygon turf cs = Some multi
      ∧ booleanPointInPolygon turf pt multi = Some false).

Definition throws_on (turf : Turf) (pt : TurfFeature) (f : Feature) : Prop :=
  (exists cs,
      geometry f = Some (Polygon cs)
      ∧ (polygon turf cs = None
         ∨ exists poly, polygon turf cs = Some poly
                        ∧ booleanPointInPolygon turf pt poly = None))
  ∨ (exists cs,
      geometry f = Some (MultiPolygon cs)
      ∧ (multiPolygon turf cs = None
         ∨ exists multi, multiPolygon turf cs = Some multi
                         ∧ booleanPointInPolygon turf pt multi = None)).

(** The [nimi] property of a feature, if it has one. *)
Definition nimi_of (f : Feature) : option string :=
  props ← properties f; nimi props.

(** The municipality lookup as the specification words it: the [nimi] of
    the first containing feature, and ['Unknown'] without data, without a
    containing feature, without a [nimi] property, or when the library
    throws. *)
Definition lookup_as_stated (turf : Turf) (data : option FeatureCollection)
    (lat lon : Q) : Prop :=
  let r := getMunicipalityForCamera turf data lat lon in
  (data = None -> r = "Unknown")
  ∧ (point turf [lon; lat] = None -> r = "Unknown")
  ∧ forall fc pt,
      data = Some fc -> point turf [lon; lat] = Some pt ->
      (Forall (misses turf pt) (features fc) -> r = "Unknown")
      ∧ forall pre f post,
          features fc = pre ++ f :: post ->
          Forall (misses turf pt) pre ->
          (throws_on turf pt f -> r = "Unknown")
          ∧ (contains turf pt f ->
             (forall name, nimi_of f = Some name -> r = name)
             ∧ (nimi_of f = None -> r = "Unknown")).

(** A stand-in geometry library for the examples: the helpers wrap their
    coordinates, a polygon without rings is refused, and a polygon contains
    the points of the bounding box of its first ring. *)
Definition coordinate (n : nat) (p : Position) : Q := nth n p (0 # 1)%Q.

Definition in_box (p : Position) (ring : list Position) : bool :=
  existsb (fun v => Qle_bool (coordinate 0 v) (coordinate 0 p)) ring
  && existsb (fun v => Qle_bool (coordinate 0 p) (coordinate 0 v)) ring
  && existsb (fun v => Qle_bool (coordinate 1 v) (coordinate 1 p)) ring
  && existsb (fun v => Qle_bool (coordinate 1 p) (coordinate 1 v)) ring.

Definition box_turf : Turf :=
  {| point := fun c => Some (TurfPoint c);
     polygon := fun cs =>
       match cs with [] => None | _ => Some (TurfPolygon cs) end;
     multiPolygon := fun cs => Some (TurfMultiPolygon cs);
     booleanPointInPolygon := fun pt poly =>
       match pt, poly with
       | TurfPoint p, TurfPolygon (ring :: _) => Some (in_box p ring)
       | TurfPoint p, TurfMultiPolygon polys =>
           Some (existsb
                   (fun rings =>
                      match rings with
                      | ring :: _ => in_box p ring
                      | [] => false
                      end)
                   polys)
       | _, _ => None
       end |}.

Definition sample_lat : Q := (65 # 1)%Q.
Definition sample_lon : Q := (51 # 2)%Q.

Definition square (west south east north : Q) : list (list Position) :=
  [[ [west; south]; [east; south]; [east; north]; [west; north];
     [west; south] ]].

Definition sample_feature (g : option Geometry) (name : option string)
  : Feature :=
  {| geometry := g; properties := Some {| nimi := name |} |}.

(** A point feature, Kempele south of the sample point, Oulu around it and
    a second polygon around it. *)
Definition sample_municipalities : FeatureCollection :=
  {| features :=
       [ sample_feature (Some OtherGeometry) (Some "Piste");
         sample_feature
           (Some (Polygon (square (25 # 1)%Q (129 # 2)%Q (26 # 1)%Q (649 # 10)%Q)))
           (Some "Kempele");
         sample_feature
           (Some (MultiPolygon
                    [square (25 # 1)%Q (649 # 10)%Q (26 # 1)%Q (66 # 1)%Q]))
           (Some "Oulu");
         sample_feature
           (Some (Polygon (square (20 # 1)%Q (60 # 1)%Q (30 # 1)%Q (70 # 1)%Q)))
           (Some "Suomi") ] |}.

(** One polygon around the sample point whose [nimi] is the empty string. *)
Definition nameless_municipalities : FeatureCollection :=
  {| features :=
       [ sample_feature
           (Some (Polygon (square (25 # 1)%Q (64 # 1)%Q (26 # 1)%Q (66 # 1)%Q)))
           (Some EmptyString) ] |}.

(** The data requests among the requests sent: image loads left out. *)
Definition is_fetch (r : Request) : bool :=
  match r with
  | Fetch _ _ => true
  | ImageLoad _ => false
  end.

Definition data_requests (w : World) : list Request :=
  List.filter is_fetch (requests (browser w)).

(** What loading images leaves alone: every field of the controller but
    [currentImages], every part of the page but the grid, the two storages
    and the data requests. *)
Definition outside_images (w : World) :=
  (cameras (ctl w), allCameras (ctl w), municipalityData (ctl w),
   currentCycleIndex (ctl w), lockedCameras (ctl w), lastFullUpdate (ctl w),
   isMobile (ctl w), started (ctl w), config (ctl w),
   (municipalityOptions (dom w), stationOptions (dom w),
    intervalOptions (dom w), intervalValue (dom w),
    rateLimitWarning (dom w)),
   (sessionStorage (browser w), localStorage (browser w), data_requests w)).

(** Slot [i] is locked and shows [camera], and the grid cell is [cell]. *)
Definition frozen (i : Z) (camera : Camera) (cell : option Slot) (w : World)
  : Prop :=
  i ∈ lockedCameras (ctl w)
  ∧ currentImages (ctl w) !! i = Some camera
  ∧ cameraGrid (dom w) !! i = cell.

(** A world to try the operations on: the sample cameras are loaded, four
    slots show the first four cameras, and every image loads. *)
Definition sample_env : Env :=
  {| turf_global := Some box_turf; detect_mobile := false;
     date_now := sample_now;
     geojson_response := fun _ => Some sample_municipalities;
     cameras_response := fun _ => Some [];
     image_loads := fun _ _ => true |}.

Definition sample_dom : Dom :=
  {| cameraGrid := ∅; municipalityOptions := []; stationOptions := [];
     intervalOptions :=
       [(2000, false); (3000, false); (5000, false); (8000, false);
        (10000, false); (15000, false); (20000, false); (30000, false)];
     intervalValue := Some 5000; rateLimitWarning := false |}.

Definition empty_browser : Browser :=
  {| sessionStorage := ∅; localStorage := ∅; requests := [] |}.

Definition fresh_world : World :=
  {| ctl := new_controller false; dom := sample_dom;
     browser := empty_browser |}.

Definition sample_world : World :=
  renderCameras sample_env
    (with_config (set_dropOldCameras false)
       (with_ctl (set_cameras sample_cameras) fresh_world)).

(** The sample world showing three cameras at a time, and with the third
    slot locked. *)
Definition sample_world3 : World :=
  with_config (set_cameraCount 3) sample_world.

Definition locked_world : World :=
  toggleCameraLock 2 sample_world3.

(** The interval selector shows the configured interval. *)
Definition interval_in_sync (w : World) : Prop :=
  intervalValue (dom w) = Some (cyclingInterval (config (ctl w))).

(** Sixteen cameras asked for while the selector and the configuration are
    at five seconds. *)
Definition sixteen_world : World :=
  with_config (set_cameraCount 16) fresh_world.

(** The names a selector lists after its fixed first option. *)
Definition listed_names (options : list (string * string)) : list string :=
  map fst (tail options).

(** The presets of a response that [filterCameras] keeps. *)
Definition kept_presets (config : Config) (now : Z)
    (rawCameras : list RawCamera) : list RawPreset :=
  List.filter
    (fun p => negb (dropOldCameras config)
              || age_below_4h now (rp_measuredTime p))
    (flat_map rc_presets rawCameras).

(** Ingestion as the specification words it: no two stored cameras with the
    same [presetId], no name twice in a selector. *)
Definition ingestion_as_stated (env : Env) (turf : Turf)
    (rawCameras : list RawCamera) (w : World) : Prop :=
  let w' := processCameras env turf rawCameras w in
  NoDup (map presetId (cameras (ctl w')))
  ∧ NoDup (listed_names (municipalityOptions (dom w')))
  ∧ NoDup (listed_names (stationOptions (dom w'))).

(** A response that lists the preset [P7] twice. *)
Definition sample_preset (id : string) (t : Z) : RawPreset :=
  {| rp_presetId := id; rp_presentationName := "View";
     rp_imageUrl := "img/" +:+ id; rp_measuredTime := Some t |}.

Definition sample_station (name : string) (presets : list RawPreset)
  : RawCamera :=
  {| rc_cameraId := "C1"; rc_name := name; rc_lat := sample_lat;
     rc_lon := sample_lon; rc_presets := presets |}.

Definition repeated_response : list RawCamera :=
  [ sample_station "Oulu_Keskusta"
      [ sample_preset "P7" (sample_now - 60000);
        sample_preset "P8" (sample_now - 120000) ];
    sample_station "Oulu_Tori"
      [ sample_preset "P7" (sample_now - 60000) ] ].

(** The two storages of the browser. *)
Definition storage (b : Browser) : gmap string string * gmap string string :=
  (sessionStorage b, localStorage b).

(** The data requests an event is expected to send. *)
Definition fetches (env : Env) (ev : Event) (w : World) : list Request :=
  match ev with
  | PageLoad =>
      match turf_global env with
      | None => []
      | Some _ =>
          match geojson_response env (sent w) with
          | None => [Fetch "GET" geojson_url]
          | Some _ => [Fetch "GET" geojson_url; Fetch "POST" api_url]
          end
      end
  | ReloadTick => if started (ctl w) then [Fetch "POST" api_url] else []
  | _ => []
  end.

Definition empty_page : JQuery.Page :=
  {| JQuery.tiles := ∅; JQuery.page_browser := empty_browser |}.

(** "No operation writes to browser storage", for the events of the
    controller and for a poll of the jQuery script. *)
Definition no_storage_write_as_stated (env : Env) (w : World)
    (p : JQuery.Page) : Prop :=
  (forall ev, storage (browser (step env ev w)) = storage (browser w))
  ∧ storage (JQuery.page_browser (JQuery.conditionalRender env 0 4 p))
    = storage (JQuery.page_browser p).

(** "Initialization issues one data request": a page load that gets as far
    as installing the timers has sent exactly one. *)
Definition one_data_request_as_stated (env : Env) (w : World) : Prop :=
  started (ctl (step env PageLoad w)) = true ->
  exists r, data_requests (step env PageLoad w) = data_requests w ++ [r].


(** ** Further notions and sample data *)

(** The camera has a valid timestamp. *)
Definition dated (c : Camera) : Prop := is_Some (measuredTime c).

(** The selection of [config] accepts the camera: what [getFilteredCameras]
    keeps. *)
Definition selected_by (config : Config) (c : Camera) : bool :=
  if String.eqb (cyclingMode config) "municipality"
     && JS.truthy (selectedMunicipality config)
  then bool_decide (municipality c = selectedMunicipality config)
  else if String.eqb (cyclingMode config) "station"
          && JS.truthy (selectedStation config)
  then bool_decide (stationName c = selectedStation config)
  else true.

(** A slot the loaders pass over: a placeholder, or a container that shows
    the error message. *)
Definition inert (cell : Slot) : Prop := cell = Placeholder ∨ cell = Failed.

(** A container an image can be loaded into. *)
Definition loadable (cell : option Slot) : Prop :=
  cell = Some Loading ∨ exists c, cell = Some (Showing c).

(** The network answers every image request. *)
Definition images_load (env : Env) : Prop :=
  forall n url, image_loads env n url = true.

(** Slot [i] holds the inert cell [cell] and the image entry [entry]. *)
Definition parked (i : Z) (cell : Slot) (entry : option Camera) (w : World)
  : Prop :=
  cameraGrid (dom w) !! i = Some cell ∧ currentImages (ctl w) !! i = entry.

(** The requests [w'] has sent after [w]: at most [k], each an image load of
    a camera of [pool]. *)
Definition image_requests_since (pool : list Camera) (k : nat) (w w' : World)
  : Prop :=
  exists new,
    requests (browser w') = requests (browser w) ++ new
    ∧ (length new <= k)%nat
    ∧ Forall (fun r => exists c, c ∈ pool ∧ r = ImageLoad (imageUrl c)) new.

(** The sample world after the image of slot 1 failed to load. *)
Definition failed_world : World :=
  with_dom
    (set_cameraGrid (<[1 := Failed]> (cameraGrid (dom sample_world))))
    sample_world.

(** The kind of a grid cell: none, a placeholder, or a camera container. *)
Inductive CellKind := NoCell | PlaceholderCell | ContainerCell.

Definition cell_kind (cell : option Slot) : CellKind :=
  match cell with
  | None => NoCell
  | Some Placeholder => PlaceholderCell
  | Some _ => ContainerCell
  end.

(** A world whose controller is ready, on a mobile device or not. *)
Definition ready_world : World := with_ctl (set_started true) sample_world.

(** An environment in which the camera request fails, and one on a mobile
    device. *)
Definition offline_env : Env :=
  {| turf_global := Some box_turf; detect_mobile := false;
     date_now := sample_now;
     geojson_response := fun _ => Some sample_municipalities;
     cameras_response := fun _ => None;
     image_loads := fun _ _ => true |}.

Definition mobile_env : Env :=
  {| turf_global := Some box_turf; detect_mobile := true;
     date_now := sample_now;
     geojson_response := fun _ => Some sample_municipalities;
     cameras_response := fun _ => Some repeated_response;
     image_loads := fun _ _ => true |}.

(** The ready world asked for twelve cameras. *)
Definition twelve_world : World :=
  with_config (set_cameraCount 12) ready_world.

(** The name marks an Yli-Ii camera. *)
Definition is_YliIi (c : RawCamera) : bool := JS.includes (rc_name c) "Yli-Ii".

(** No Yli-Ii camera is directly followed by another. *)
Fixpoint no_YliIi_pair (l : list RawCamera) : Prop :=
  match l with
  | a :: (b :: _) as rest =>
      ¬ (is_YliIi a = true ∧ is_YliIi b = true) ∧ no_YliIi_pair rest
  | _ => True
  end.

(** [k] turns of the loop of [onpageload] from its first state. *)
Definition onpageload_turns (env : Env) (k : nat) (p : JQuery.Page)
  : Z * Z * JQuery.Page :=
  Nat.iter k (JQuery.onpageload_turn env) (0, 4, p).

(** A response with six Oulu cameras, each with one fresh preset. *)
Definition six_cameras : list RawCamera :=
  map (fun id => sample_station ("Tie_" +:+ id +:+ "_Oulu_")
                   [sample_preset id (sample_now - 60000)])
      ["A"; "B"; "C"; "D"; "E"; "F"].

Definition six_env : Env :=
  {| turf_global := None; detect_mobile := false; date_now := sample_now;
     geojson_response := fun _ => None;
     cameras_response := fun _ => Some six_cameras;
     image_loads := fun _ _ => true |}.

(** Ascending order of strings, as [String.leb] decides it. *)
Definition string_le (s t : string) : Prop := String.leb s t = true.

(** Every stored camera is one of the last response. *)
Definition cameras_from_response (w : World) : Prop :=
  forall c, c ∈ cameras (ctl w) -> c ∈ allCameras (ctl w).

(** The cycle index and the camera count are not negative. *)
Definition index_and_count_nonneg (w : World) : Prop :=
  0 <= currentCycleIndex (ctl w) ∧ 0 <= cameraCount (config (ctl w)).

(** An event that does not ask for a negative number of cameras. *)
Definition count_event_ok (ev : Event) : Prop :=
  match ev with
  | CameraCountChange value => 0 <= value
  | _ => True
  end.

(** The page offers every minimum cycle time as an interval. *)
Definition offers_minimums (w : World) : Prop :=
  forall count, minCycleTime count ∈ map fst (intervalOptions (dom w)).

Definition some_events : list Event :=
  [CameraCountChange 16; CyclingToggleClick; CycleTick; CycleTick;
   CyclingIntervalChange 30000; CameraCountChange 2;
   MunicipalityChange "Oulu"; CyclingModeChange "municipality"; CycleTick;
   DropOldChange false; ReloadTick; UpdateTick; LockClick 0; CycleTick].
(** ** Notions and sample data for the locks, the interval and the events *)

(** A grid cell that shows no camera: there is none, or it is a placeholder,
    or a container still showing its spinner. *)
Definition shows_no_camera (cell : option Slot) : Prop :=
  cell = None ∨ cell = Some Placeholder ∨ cell = Some Loading.

(** Slot [i] is locked and holds [camera] in [currentImages], while its cell
    shows no camera. *)
Definition locked_out (i : Z) (camera : Camera) (w : World) : Prop :=
  i ∈ lockedCameras (ctl w)
  ∧ currentImages (ctl w) !! i = Some camera
  ∧ shows_no_camera (cameraGrid (dom w) !! i).

(** A response with one stale camera before the six fresh ones. *)
Definition mixed_response : list RawCamera :=
  sample_station "Oulu_Vanha" [sample_preset "Old" (sample_now - 18000000)]
  :: six_cameras.

Definition camera_env : Env :=
  {| turf_global := Some box_turf; detect_mobile := false;
     date_now := sample_now;
     geojson_response := fun _ => Some sample_municipalities;
     cameras_response := fun _ => Some mixed_response;
     image_loads := fun _ _ => true |}.

(** The page after it has loaded, showing the first four fresh cameras, and
    after the lock of the third slot has been clicked. *)
Definition loaded_world : World := step camera_env PageLoad fresh_world.

Definition locked_page : World := step camera_env (LockClick 2) loaded_world.

(** The preset shown by a cell, where it shows a camera. *)
Definition shown_preset (cell : option Slot) : option string :=
  match cell with
  | Some (Showing c) => Some (presetId c)
  | _ => None
  end.



(** * Properties *)

(** ** Sample runs *)

Example remove_YliIi_sample :
  map rc_name
      (JQuery.camerasInOulu
         [ sample_station "Tie_4_Yli-Ii_A" []; sample_station "Tie_4_Yli-Ii_B" [];
           sample_station "Tie_22_Oulu_C" []; sample_station "Kemi" [] ])
  = ["Tie_4_Yli-Ii_B"; "Tie_22_Oulu_C"].
Proof. reflexivity. Qed.

Example getImageAge_sample :
  getImageAge sample_now (Some (sample_now - 18065000)) = "5h 1m ago"
  ∧ getImageAge sample_now None = "NaNm ago".
Proof. vm_compute. split; reflexivity. Qed.

Example page_load_sample :
  let w := step sample_env PageLoad fresh_world in
  started (ctl w) = true
  ∧ municipalityData (ctl w) = Some sample_municipalities
  ∧ requests (browser w) = [Fetch "GET" geojson_url; Fetch "POST" api_url].
Proof. vm_compute. repeat split; reflexivity. Qed.



(** ** Sorting *)

Section SortFacts.
Context {A : Type} (before : A -> A -> bool).

Lemma sort_insert_perm (x : A) (l : list A) :
  JS.sort_insert before x l ≡ₚ x :: l.
Proof.
  induction l as [|y l IH]; simpl; [done|].
  destruct (before x y); [done|].
  rewrite IH. apply Permutation_swap.
Qed.

Lemma sort_perm (l : list A) : JS.sort before l ≡ₚ l.
Proof.
  induction l as [|x l IH]; simpl; [done|].
  fold (JS.sort before l). by rewrite sort_insert_perm, IH.
Qed.

(** On elements that the comparator orders totally, according to a
    transitive relation [R], the result is sorted. *)
Context (P : A -> Prop) (R : relation A).
Hypothesis before_true : forall x y, P x -> P y -> before x y = true -> R x y.
Hypothesis before_false :
  forall x y, P x -> P y -> before x y = false -> R y x.
Hypothesis R_trans : forall x y z, R x y -> R y z -> R x z.

Lemma sort_insert_sorted (x : A) (l : list A) :
  P x -> Forall P l -> StronglySorted R l ->
  StronglySorted R (JS.sort_insert before x l).
Proof.
  intros Px HP Hs. induction l as [|y l IH]; simpl.
  - repeat constructor.
  - apply Forall_cons in HP as [Py HP].
    apply StronglySorted_inv in Hs as [Hs Hy].
    destruct (before x y) eqn:E.
    + constructor; [by constructor|].
      constructor; [by apply before_true|].
      eapply Forall_impl; [exact Hy|]. intros z Hz.
      eapply R_trans; [|exact Hz]. by apply before_true.
    + constructor; [by apply IH|].
      rewrite sort_insert_perm. constructor; [|done].
      by apply before_false.
Qed.

Lemma sort_sorted (l : list A) :
  Forall P l -> StronglySorted R (JS.sort before l).
Proof.
  induction l as [|x l IH]; intros HP; simpl; [constructor|].
  apply Forall_cons in HP as [Px HP]. fold (JS.sort before l).
  apply sort_insert_sorted; [done| |by apply IH].
  by rewrite sort_perm.
Qed.

End SortFacts.

(** ** C10: grid sizing *)

(** C10.  For every camera count [n], [getOptimalGridSize n] is a standard
    grid size; when [n <= 16] it is at least [n] and no standard size that
    is at least [n] is smaller; when [n > 16] it is [16]; it is at least
    [min n 16]; and the function is monotone. *)
Theorem getOptimalGridSize_tightest (n : Z) :
  getOptimalGridSize n ∈ standardGridSizes
  ∧ (n <= 16 ->
     n <= getOptimalGridSize n
     ∧ forall g, g ∈ standardGridSizes -> n <= g -> getOptimalGridSize n <= g)
  ∧ (16 < n -> getOptimalGridSize n = 16)
  ∧ Z.min n 16 <= getOptimalGridSize n
  ∧ (forall m, n <= m -> getOptimalGridSize n <= getOptimalGridSize m).
Proof.
  assert (Hcases : forall k,
    (k <= 1 /\ getOptimalGridSize k = 1)
    \/ (1 < k <= 2 /\ getOptimalGridSize k = 2)
    \/ (2 < k <= 4 /\ getOptimalGridSize k = 4)
    \/ (4 < k <= 6 /\ getOptimalGridSize k = 6)
    \/ (6 < k <= 8 /\ getOptimalGridSize k = 8)
    \/ (8 < k <= 12 /\ getOptimalGridSize k = 12)
    \/ (12 < k <= 16 /\ getOptimalGridSize k = 16)
    \/ (16 < k /\ getOptimalGridSize k = 16)).
  { intros k. unfold getOptimalGridSize, standardGridSizes. simpl.
    repeat match goal with
           | |- context [k <=? ?g] => destruct (Z.leb_spec k g); cbn; [lia|]
           end.
    lia. }
  unfold standardGridSizes.
  split; [|split; [|split; [|split]]].
  - rewrite !elem_of_cons. destruct (Hcases n); lia.
  - intros Hn. split; [destruct (Hcases n); lia|].
    intros g Hg Hle. rewrite !elem_of_cons, elem_of_nil in Hg.
    destruct (Hcases n); lia.
  - destruct (Hcases n); lia.
  - destruct (Hcases n); lia.
  - intros m Hm. destruct (Hcases n), (Hcases m); lia.
Qed.

Lemma getOptimalGridSize_tightest_witness :
  5 <= getOptimalGridSize 5
  ∧ (forall g, g ∈ standardGridSizes -> 5 <= g -> getOptimalGridSize 5 <= g)
  ∧ getOptimalGridSize 17 = 16
  ∧ getOptimalGridSize 5 <= getOptimalGridSize 9.
Proof.
  destruct (getOptimalGridSize_tightest 5) as (_ & H5 & _ & _ & Hmono).
  destruct (getOptimalGridSize_tightest 17) as (_ & _ & H17 & _).
  destruct (H5 ltac:(lia)) as [Ha Hb].
  split; [exact Ha|]. split; [exact Hb|].
  split; [apply H17; lia | apply Hmono; lia].
Defined.

(** ** C1: the freshness filter *)

Lemma newer_than_age (now : Z) (t : option Z) :
  newer_than t (now - fourHours) = age_below_4h now t.
Proof.
  destruct t as [ms|]; simpl; [|done].
  destruct (Z.ltb_spec (now - fourHours) ms), (Z.ltb_spec (now - ms) fourHours);
    lia.
Qed.

Lemma recent_age (now : Z) (t : option Z) :
  JQuery.recent now t = age_below_4h now t.
Proof.
  destruct t as [ms|]; simpl; [|done].
  unfold JQuery.diffHours, fourHours.
  destruct (Qle_bool _ _) eqn:E; simpl.
  - apply Qle_bool_iff in E. symmetry. apply Z.ltb_ge.
    unfold Qle in E. simpl in E. lia.
  - symmetry. apply Z.ltb_lt.
    destruct (Z_lt_le_dec (now - ms) (4 * 60 * 60 * 1000)) as [|Hge]; [done|].
    assert (Qle_bool (inject_Z 4)
              (inject_Z (now - ms) / inject_Z 3600000)%Q = true) as E'.
    { apply Qle_bool_iff. unfold Qle. simpl. lia. }
    congruence.
Qed.

(** C1.  With [dropOldCameras] enabled, [filterCameras] returns exactly the
    cameras of its input whose timestamp is less than four hours old (a
    permutation of them, with multiplicities), ordered newest first; and the
    jQuery script keeps the presets with the same strict four-hour cutoff in
    [camerasInOulu_noOld]. *)
Theorem filterCameras_drops_stale (config : Config) (now : Z)
    (cameras : list Camera) :
  dropOldCameras config = true ->
  filterCameras config now cameras
    ≡ₚ List.filter (fun c => age_below_4h now (measuredTime c)) cameras
  ∧ StronglySorted newest_first (filterCameras config now cameras)
  ∧ forall cameraArray,
      JQuery.camerasInOulu_noOld now cameraArray
      = List.filter (fun e => age_below_4h now (rp_measuredTime e))
                    (JQuery.camerasInOulu_Clean cameraArray).
Proof.
  intros Hdrop. unfold filterCameras. rewrite Hdrop.
  assert (Hfilter :
    List.filter (fun camera => newer_than (measuredTime camera)
                                          (now - fourHours)) cameras
    = List.filter (fun c => age_below_4h now (measuredTime c)) cameras).
  { apply List.filter_ext. intros c. apply newer_than_age. }
  rewrite Hfilter. split; [apply sort_perm|]. split.
  - apply (sort_sorted freshness_before
             (fun c => is_Some (measuredTime c)) newest_first).
    + intros x y [tx Hx] [ty Hy]. unfold freshness_before, freshness_compare,
        newest_first. rewrite Hx, Hy. intros H%Z.leb_le. lia.
    + intros x y [tx Hx] [ty Hy]. unfold freshness_before, freshness_compare,
        newest_first. rewrite Hx, Hy. intros H%Z.leb_gt. lia.
    + intros x y z. unfold newest_first.
      destruct (measuredTime x), (measuredTime y), (measuredTime z);
        try done; lia.
    + apply Forall_forall. intros c Hc%list_elem_of_In%filter_In.
      destruct Hc as [_ Hc]. destruct (measuredTime c); [by eexists|done].
  - intros cameraArray. unfold JQuery.camerasInOulu_noOld, JQuery.noOld.
    apply List.filter_ext. intros e. apply recent_age.
Qed.

Example filterCameras_sample :
  map presetId (filterCameras initial_config sample_now sample_cameras)
  = ["P4"; "P2"].
Proof. reflexivity. Qed.

Lemma filterCameras_drops_stale_witness :
  dropOldCameras initial_config = true
  ∧ filterCameras initial_config sample_now sample_cameras
      ≡ₚ List.filter (fun c => age_below_4h sample_now (measuredTime c))
                     sample_cameras
  ∧ StronglySorted newest_first
      (filterCameras initial_config sample_now sample_cameras).
Proof.
  split; [reflexivity|].
  destruct (filterCameras_drops_stale initial_config sample_now sample_cameras
              eq_refl) as (Hperm & Hsorted & _).
  split; [exact Hperm | exact Hsorted].
Defined.

(** ** C3: filtering by municipality or station *)

(** C3.  [getFilteredCameras] returns the cameras of the selected
    municipality in mode ['municipality'] with a municipality selected, the
    cameras of the selected station in mode ['station'] with a station
    selected, and the list itself in every other case, in particular when
    the selected value is the empty string. *)
Theorem getFilteredCameras_mode_gated (config : Config)
    (cameras : list Camera) :
  (cyclingMode config = "municipality" ->
   selectedMunicipality config ≠ EmptyString ->
   getFilteredCameras config cameras
   = List.filter
       (fun c => bool_decide (municipality c = selectedMunicipality config))
       cameras)
  ∧ (cyclingMode config = "station" ->
     selectedStation config ≠ EmptyString ->
     getFilteredCameras config cameras
     = List.filter
         (fun c => bool_decide (stationName c = selectedStation config))
         cameras)
  ∧ (¬ (cyclingMode config = "municipality"
        ∧ selectedMunicipality config ≠ EmptyString) ->
     ¬ (cyclingMode config = "station" ∧ selectedStation config ≠ EmptyString) ->
     getFilteredCameras config cameras = cameras).
Proof.
  assert (Heqb : forall s t : string, String.eqb s t = bool_decide (s = t)).
  { intros s t. destruct (String.eqb_spec s t).
    - by rewrite bool_decide_true.
    - by rewrite bool_decide_false. }
  assert (Htruthy : forall s, JS.truthy s = true <-> s ≠ EmptyString).
  { intros [|c s]; simpl; split; congruence. }
  unfold getFilteredCameras. split; [|split].
  - intros Hmode Hsel. rewrite Hmode. simpl.
    apply Htruthy in Hsel. rewrite Hsel.
    apply List.filter_ext. intros c. apply Heqb.
  - intros Hmode Hsel. rewrite Hmode. simpl.
    apply Htruthy in Hsel. rewrite Hsel.
    apply List.filter_ext. intros c. apply Heqb.
  - intros Hm Hs.
    destruct (String.eqb_spec (cyclingMode config) "municipality") as [E1|_].
    { destruct (JS.truthy (selectedMunicipality config)) eqn:T; [|done].
      apply Htruthy in T. tauto. }
    destruct (String.eqb_spec (cyclingMode config) "station") as [E2|_];
      [|done].
    destruct (JS.truthy (selectedStation config)) eqn:T; [|done].
    apply Htruthy in T. tauto.
Qed.

Lemma getFilteredCameras_mode_gated_witness :
  map presetId
      (getFilteredCameras
         (set_selectedMunicipality "Kempele"
            (set_cyclingMode "municipality" initial_config))
         sample_cameras) = ["P3"; "P4"]
  ∧ getFilteredCameras
      (set_selectedStation "Oulu_Keskusta"
         (set_cyclingMode "station" initial_config))
      sample_cameras
    = List.filter
        (fun c => bool_decide (stationName c = "Oulu_Keskusta"))
        sample_cameras
  ∧ getFilteredCameras (set_cyclingMode "station" initial_config)
                       sample_cameras = sample_cameras.
Proof.
  split; [|split].
  - destruct (getFilteredCameras_mode_gated
                (set_selectedMunicipality "Kempele"
                   (set_cyclingMode "municipality" initial_config))
                sample_cameras) as (H & _ & _).
    rewrite H; [reflexivity | reflexivity | discriminate].
  - destruct (getFilteredCameras_mode_gated
                (set_selectedStation "Oulu_Keskusta"
                   (set_cyclingMode "station" initial_config))
                sample_cameras) as (_ & H & _).
    apply H; [reflexivity | discriminate].
  - destruct (getFilteredCameras_mode_gated
                (set_cyclingMode "station" initial_config)
                sample_cameras) as (_ & _ & H).
    apply H; simpl; intros [? ?]; congruence.
Defined.

(** ** C2: the municipality of a camera *)

Section Lookup.
Context (turf : Turf) (pt : TurfFeature).

Lemma scan_features_misses (pre rest : list Feature) :
  Forall (misses turf pt) pre ->
  scan_features turf pt (pre ++ rest) = scan_features turf pt rest.
Proof.
  induction 1 as [|f pre Hf _ IH]; [done|]. simpl.
  destruct Hf as [Hg|[Hg|[(cs & poly & Hg & Hp & Hb)|(cs & poly & Hg & Hp & Hb)]]];
    rewrite Hg; simpl; rewrite ?Hp; simpl; rewrite ?Hb; simpl; exact IH.
Qed.

Lemma scan_features_all_miss (fs : list Feature) :
  Forall (misses turf pt) fs -> scan_features turf pt fs = Some None.
Proof.
  intros H. rewrite <- (app_nil_r fs). by rewrite scan_features_misses.
Qed.

Lemma scan_features_throws (f : Feature) (post : list Feature) :
  throws_on turf pt f -> scan_features turf pt (f :: post) = None.
Proof.
  intros [(cs & Hg & [Hp|(poly & Hp & Hb)])|(cs & Hg & [Hp|(poly & Hp & Hb)])];
    simpl; rewrite Hg; simpl; rewrite Hp; simpl; rewrite ?Hb; done.
Qed.

Lemma scan_features_contains (f : Feature) (post : list Feature) :
  contains turf pt f ->
  scan_features turf pt (f :: post) = Some <$> nimi_or_unknown f.
Proof.
  intros [(cs & poly & Hg & Hp & Hb)|(cs & poly & Hg & Hp & Hb)];
    simpl; rewrite Hg; simpl; rewrite Hp; simpl; rewrite Hb; simpl;
    by destruct (nimi_or_unknown f).
Qed.

(** Every feature contains the point, misses it, or makes the library
    throw. *)
Lemma feature_verdict (f : Feature) :
  contains turf pt f ∨ misses turf pt f ∨ throws_on turf pt f.
Proof.
  unfold contains, misses, throws_on.
  destruct (geometry f) as [[cs|cs|]|] eqn:Hg; [| |by auto|by auto].
  - destruct (polygon turf cs) as [poly|] eqn:Hp; [|by right; right; left; eauto].
    destruct (booleanPointInPolygon turf pt poly) as [[]|] eqn:Hb.
    + left. left. eauto.
    + right. left. right. right. left. eauto.
    + right. right. left. eauto 10.
  - destruct (multiPolygon turf cs) as [poly|] eqn:Hp;
      [|by right; right; right; eauto].
    destruct (booleanPointInPolygon turf pt poly) as [[]|] eqn:Hb.
    + left. right. eauto.
    + right. left. right. right. right. eauto.
    + right. right. right. eauto 10.
Qed.

End Lookup.

(** C2 as stated fails: a polygon that contains the point and whose [nimi]
    is the empty string gives ['Unknown'], not its [nimi]. *)
Lemma lookup_as_stated_fails :
  ¬ lookup_as_stated box_turf (Some nameless_municipalities)
      sample_lat sample_lon.
Proof.
  intros (_ & _ & H).
  destruct (H nameless_municipalities (TurfPoint [sample_lon; sample_lat])
              eq_refl eq_refl) as [_ H'].
  destruct (H' [] (sample_feature
                     (Some (Polygon (square (25 # 1)%Q (64 # 1)%Q (26 # 1)%Q
                                            (66 # 1)%Q)))
                     (Some EmptyString)) [] eq_refl (List.Forall_nil _)) as [_ Hc].
  destruct Hc as [Hname _].
  - left. eexists _, _. repeat split; reflexivity.
  - specialize (Hname EmptyString eq_refl). vm_compute in Hname. discriminate.
Qed.

(** C2 (amended).  [getMunicipalityForCamera] returns ['Unknown'] without
    municipality data and when the library throws, on the point or on a
    feature reached before any feature contains the point; it returns
    ['Unknown'] when no feature contains the point; and when a first feature
    of type Polygon or MultiPolygon contains the point it returns that
    feature's [nimi] if it is a non-empty string, and ['Unknown'] if the
    feature has no [nimi] or an empty one. *)
Theorem getMunicipalityForCamera_lookup (turf : Turf)
    (data : option FeatureCollection) (lat lon : Q) :
  let r := getMunicipalityForCamera turf data lat lon in
  (data = None -> r = "Unknown")
  ∧ (point turf [lon; lat] = None -> r = "Unknown")
  ∧ forall fc pt,
      data = Some fc -> point turf [lon; lat] = Some pt ->
      (Forall (misses turf pt) (features fc) -> r = "Unknown")
      ∧ forall pre f post,
          features fc = pre ++ f :: post ->
          Forall (misses turf pt) pre ->
          (throws_on turf pt f -> r = "Unknown")
          ∧ (contains turf pt f ->
             (forall name, nimi_of f = Some name -> name ≠ EmptyString -> r = name)
             ∧ (nimi_of f = None ∨ nimi_of f = Some EmptyString -> r = "Unknown")).
Proof.
  simpl. split; [|split].
  - by intros ->.
  - intros Hpt. unfold getMunicipalityForCamera.
    destruct data; [|done]. by rewrite Hpt.
  - intros fc pt -> Hpt. unfold getMunicipalityForCamera. rewrite Hpt. simpl.
    split.
    + intros Hall. by rewrite scan_features_all_miss.
    + intros pre f post -> Hpre. rewrite scan_features_misses by done.
      split.
      * intros Hthrow. by rewrite scan_features_throws.
      * intros Hc. rewrite scan_features_contains by done.
        unfold nimi_of, nimi_or_unknown.
        destruct (properties f) as [props|]; simpl.
        -- destruct (nimi props) as [name|]; simpl.
           ++ split.
              ** intros name' [= ->] Hne.
                 destruct name'; [done|reflexivity].
              ** intros [[=]|[= ->]]. reflexivity.
           ++ split; [by intros ?|done].
        -- split; [by intros ?|done].
Qed.

Example getMunicipalityForCamera_sample :
  getMunicipalityForCamera box_turf (Some sample_municipalities)
                           sample_lat sample_lon = "Oulu".
Proof. reflexivity. Qed.

Lemma getMunicipalityForCamera_lookup_witness :
  getMunicipalityForCamera box_turf (Some sample_municipalities)
                           sample_lat sample_lon = "Oulu"
  ∧ getMunicipalityForCamera box_turf (Some nameless_municipalities)
                             sample_lat sample_lon = "Unknown"
  ∧ getMunicipalityForCamera box_turf None sample_lat sample_lon = "Unknown".
Proof.
  split; [|split].
  - destruct (getMunicipalityForCamera_lookup box_turf
                (Some sample_municipalities) sample_lat sample_lon)
      as (_ & _ & H).
    destruct (H sample_municipalities (TurfPoint [sample_lon; sample_lat])
                eq_refl eq_refl) as [_ H'].
    destruct (H' (take 2 (features sample_municipalities))
                 (sample_feature
                    (Some (MultiPolygon
                             [square (25 # 1)%Q (649 # 10)%Q (26 # 1)%Q (66 # 1)%Q]))
                    (Some "Oulu"))
                 (drop 3 (features sample_municipalities)) eq_refl)
      as [_ Hc].
    + apply List.Forall_cons; [|apply List.Forall_cons; [|apply List.Forall_nil]].
      * right. left. reflexivity.
      * right. right. left. eexists _, _. repeat split; reflexivity.
    + apply Hc; [|reflexivity|discriminate].
      right. eexists _, _. repeat split; reflexivity.
  - destruct (getMunicipalityForCamera_lookup box_turf
                (Some nameless_municipalities) sample_lat sample_lon)
      as (_ & _ & H).
    destruct (H nameless_municipalities (TurfPoint [sample_lon; sample_lat])
                eq_refl eq_refl) as [_ H'].
    destruct (H' [] (sample_feature
                       (Some (Polygon (square (25 # 1)%Q (64 # 1)%Q (26 # 1)%Q
                                              (66 # 1)%Q)))
                       (Some EmptyString)) [] eq_refl (List.Forall_nil _)) as [_ Hc].
    apply Hc; [|right; reflexivity].
    left. eexists _, _. repeat split; reflexivity.
  - destruct (getMunicipalityForCamera_lookup box_turf None sample_lat
                sample_lon) as (H & _).
    exact (H eq_refl).
Defined.

(** ** Frame lemmas for the image loaders *)

Lemma foldl_preserves {S X B} (proj : S -> B) (f : S -> X -> S) (l : list X) :
  (forall s x, proj (f s x) = proj s) ->
  forall s, proj (foldl f s l) = proj s.
Proof.
  intros Hf. induction l as [|x l IH]; intros s; simpl; [done|].
  by rewrite IH, Hf.
Qed.

Lemma loadSingleCamera_outside env i camera w :
  outside_images (loadSingleCamera env i camera w) = outside_images w.
Proof.
  unfold loadSingleCamera.
  assert (Hsend : forall u w0,
    data_requests (send (ImageLoad u) w0) = data_requests w0).
  { intros u w0. unfold data_requests, send. simpl.
    rewrite List.filter_app. simpl. apply app_nil_r. }
  destruct (cameraGrid (dom w) !! i) as [[| |c|]|]; try reflexivity;
    destruct (image_loads env _ _); unfold outside_images;
    (etransitivity; [|by rewrite <- (Hsend (imageUrl camera) w)]);
    reflexivity.
Qed.

Lemma loadCameraImages_slot_outside env available w i :
  outside_images (loadCameraImages_slot env available w i) = outside_images w.
Proof.
  unfold loadCameraImages_slot.
  destruct (_ && _); [done|].
  destruct (JS.index _ _); [apply loadSingleCamera_outside|done].
Qed.

Lemma loadCameraImages_outside env w :
  outside_images (loadCameraImages env w) = outside_images w.
Proof.
  unfold loadCameraImages.
  apply (foldl_preserves outside_images). intros s x.
  apply loadCameraImages_slot_outside.
Qed.

Lemma outside_images_available w w' :
  outside_images w = outside_images w' ->
  availableCameras w = availableCameras w'
  ∧ currentCycleIndex (ctl w) = currentCycleIndex (ctl w').
Proof.
  unfold outside_images, availableCameras. intros [= -> _ _ -> _ _ _ _ ->].
  done.
Qed.

(** ** C4: the cycling rotation *)


(** The index after a cycle step over a non-empty filtered list. *)
Lemma cycleCameras_step (env : Env) (w : World) :
  Z.of_nat (length (availableCameras w)) ≠ 0 ->
  currentCycleIndex (ctl (cycleCameras env w))
  = JS.rem (currentCycleIndex (ctl w) + cameraCount (config (ctl w)))
           (Z.of_nat (length (availableCameras w)))
  ∧ outside_images (cycleCameras env w)
    = outside_images
        (with_ctl
           (set_currentCycleIndex
              (JS.rem (currentCycleIndex (ctl w) + cameraCount (config (ctl w)))
                      (Z.of_nat (length (availableCameras w)))))
           w).
Proof.
  intros Hn. unfold cycleCameras.
  destruct (Z.eqb_spec (Z.of_nat (length (availableCameras w))) 0) as [|_];
    [done|].
  match goal with
  | |- context [loadCameraImages env ?w0] =>
      pose proof (loadCameraImages_outside env w0) as Hout
  end.
  split; [|exact Hout].
  apply outside_images_available in Hout as [_ ->]. done.
Qed.

(** Cycling keeps a camera count and an index that are not negative. *)
Lemma cycleCameras_nonneg (env : Env) (w : World) :
  0 <= currentCycleIndex (ctl w) ->
  0 <= cameraCount (config (ctl w)) ->
  0 <= currentCycleIndex (ctl (cycleCameras env w))
  ∧ cameraCount (config (ctl (cycleCameras env w)))
    = cameraCount (config (ctl w)).
Proof.
  intros Hi Hc.
  destruct (decide (Z.of_nat (length (availableCameras w)) = 0)) as [Hn|Hn].
  - unfold cycleCameras. by rewrite Hn.
  - destruct (cycleCameras_step env w Hn) as [-> Hout].
    unfold outside_images in Hout. injection Hout as _ _ _ _ _ _ _ _ -> _.
    split; [|done]. unfold JS.rem. rewrite Z.rem_mod_nonneg by lia.
    apply Z.mod_pos_bound. lia.
Qed.

Lemma cycling_keeps_index_nonneg (env : Env) (k : nat) (w : World) :
  0 <= currentCycleIndex (ctl w) ->
  0 <= cameraCount (config (ctl w)) ->
  0 <= currentCycleIndex (ctl (Nat.iter k (cycleCameras env) w)).
Proof.
  intros Hi Hc.
  assert (H : 0 <= currentCycleIndex (ctl (Nat.iter k (cycleCameras env) w))
              ∧ 0 <= cameraCount
                       (config (ctl (Nat.iter k (cycleCameras env) w))));
    [|by destruct H].
  induction k as [|k [IHi IHc]]; simpl; [done|].
  destruct (cycleCameras_nonneg env _ IHi IHc) as [H1 H2]. split; [done|lia].
Qed.



(** ** Locked slots under the loaders *)

Lemma foldl_invariant {S X} (Q : S -> Prop) (f : S -> X -> S) (l : list X) :
  (forall s x, Q s -> Q (f s x)) -> forall s, Q s -> Q (foldl f s l).
Proof.
  intros Hf. induction l as [|x l IH]; intros s Hs; simpl; [done|].
  apply IH, Hf, Hs.
Qed.

Lemma loadSingleCamera_other env i j camera shown cell w :
  i ≠ j -> frozen i shown cell w ->
  frozen i shown cell (loadSingleCamera env j camera w).
Proof.
  intros Hne (Hl & Hc & Hg). unfold loadSingleCamera, frozen.
  destruct (cameraGrid (dom w) !! j) as [[| |c|]|]; try done;
    destruct (image_loads env _ _); simpl;
    rewrite ?lookup_insert_ne by done; done.
Qed.

Lemma loadCameraImages_slot_frozen env available i shown cell w j :
  frozen i shown cell w ->
  frozen i shown cell (loadCameraImages_slot env available w j).
Proof.
  intros Hf. unfold loadCameraImages_slot.
  destruct (decide (i = j)) as [<-|Hne].
  - destruct Hf as (Hl & Hc & Hg).
    rewrite bool_decide_true by done.
    rewrite bool_decide_true by (by rewrite Hc). done.
  - destruct (_ && _); [done|].
    destruct (JS.index _ _); [|done].
    by apply loadSingleCamera_other.
Qed.

Lemma loadCameraImages_frozen env i shown cell w :
  frozen i shown cell w -> frozen i shown cell (loadCameraImages env w).
Proof.
  unfold loadCameraImages. apply foldl_invariant. intros s x.
  apply loadCameraImages_slot_frozen.
Qed.

Lemma updateCameraImages_slot_frozen env i shown cell w j :
  frozen i shown cell w ->
  frozen i shown cell (updateCameraImages_slot env w j).
Proof.
  intros Hf. unfold updateCameraImages_slot.
  destruct (cameraGrid (dom w) !! j) as [[| |c|]|]; try done;
    (destruct (currentImages (ctl w) !! j); [|done]);
    (destruct (decide (i = j)) as [<-|Hne];
     [ destruct Hf as (Hl & Hc & Hg); by rewrite bool_decide_true
     | destruct (negb _); [|done];
       destruct (JS.find _ _); [|done];
       by apply loadSingleCamera_other ]).
Qed.

Lemma updateCameraImages_frozen env i shown cell w :
  frozen i shown cell w -> frozen i shown cell (updateCameraImages env w).
Proof.
  unfold updateCameraImages. apply foldl_invariant. intros s x.
  apply updateCameraImages_slot_frozen.
Qed.

Lemma cycleCameras_frozen env i shown cell w :
  frozen i shown cell w -> frozen i shown cell (cycleCameras env w).
Proof.
  intros Hf. unfold cycleCameras. destruct (_ =? 0); [done|].
  by apply loadCameraImages_frozen.
Qed.

(** X29.  A slot [i] that is locked and holds an image keeps its entry of
    [currentImages], and its cell of the grid, through [loadCameraImages],
    through [updateCameraImages], whose turn for slot [i] does nothing, and
    through [cycleCameras]; so the cycling timer, the one-minute update and
    the image refresh leave the camera of a locked slot in place. *)
Theorem locked_slot_frozen (env : Env) (w : World) (i : Z) :
  i ∈ lockedCameras (ctl w) ->
  is_Some (currentImages (ctl w) !! i) ->
  (forall w',
     w' = loadCameraImages env w ∨ w' = updateCameraImages env w
     ∨ w' = cycleCameras env w ∨ w' = step env CycleTick w
     ∨ w' = step env UpdateTick w ∨ w' = step env RefreshTick w ->
     currentImages (ctl w') !! i = currentImages (ctl w) !! i
     ∧ cameraGrid (dom w') !! i = cameraGrid (dom w) !! i
     ∧ i ∈ lockedCameras (ctl w'))
  ∧ updateCameraImages_slot env w i = w
  ∧ forall available, loadCameraImages_slot env available w i = w.
Proof.
  intros Hl [camera Hc].
  assert (Hf : frozen i camera (cameraGrid (dom w) !! i) w) by done.
  split; [|split].
  - assert (Hgoal : forall w',
      frozen i camera (cameraGrid (dom w) !! i) w' ->
      currentImages (ctl w') !! i = currentImages (ctl w) !! i
      ∧ cameraGrid (dom w') !! i = cameraGrid (dom w) !! i
      ∧ i ∈ lockedCameras (ctl w')).
    { intros w' (Hl' & Hc' & Hg'). by rewrite Hc, Hc', Hg'. }
    intros w' [-> | [-> | [-> | [-> | [-> | ->]]]]]; apply Hgoal; simpl.
    + by apply loadCameraImages_frozen.
    + by apply updateCameraImages_frozen.
    + by apply cycleCameras_frozen.
    + destruct (cycling _); [by apply cycleCameras_frozen|done].
    + destruct (started _); [by apply updateCameraImages_frozen|done].
    + by destruct (started _).
  - unfold updateCameraImages_slot. rewrite Hc.
    rewrite bool_decide_true by done. simpl.
    by destruct (cameraGrid (dom w) !! i) as [[| |c|]|].
  - intros available. unfold loadCameraImages_slot.
    rewrite bool_decide_true by done.
    by rewrite bool_decide_true by (by rewrite Hc).
Qed.

Example locked_slot_sample :
  map (fun p => (fst p, presetId (snd p)))
      (map_to_list (currentImages (ctl (cycleCameras sample_env locked_world))))
  = [(3, "P4"); (2, "P3"); (1, "P1"); (0, "P4")].
Proof. vm_compute. reflexivity. Qed.

Lemma locked_slot_frozen_witness :
  2 ∈ lockedCameras (ctl locked_world)
  ∧ currentImages (ctl (cycleCameras sample_env locked_world)) !! 2
    = currentImages (ctl locked_world) !! 2
  ∧ updateCameraImages_slot sample_env locked_world 2 = locked_world.
Proof.
  assert (Hl : 2 ∈ lockedCameras (ctl locked_world)).
  { apply (bool_decide_unpack _). vm_compute. exact I. }
  assert (Hc : is_Some (currentImages (ctl locked_world) !! 2)).
  { apply (bool_decide_unpack _). vm_compute. exact I. }
  destruct (locked_slot_frozen sample_env locked_world 2 Hl Hc)
    as (Hkeep & Hturn & _).
  split; [exact Hl|]. split; [|exact Hturn].
  apply (Hkeep (cycleCameras sample_env locked_world)). auto.
Defined.

(** Beyond the loaders: every event but the page load, which builds a new
    controller, keeps the image held by a locked slot.  (An event that
    renders the grid anew gives the slot a fresh container, which, being
    locked, is then not loaded.) *)
Lemma renderCameras_held env i camera w :
  i ∈ lockedCameras (ctl w) -> currentImages (ctl w) !! i = Some camera ->
  i ∈ lockedCameras (ctl (renderCameras env w))
  ∧ currentImages (ctl (renderCameras env w)) !! i = Some camera.
Proof.
  intros Hl Hc. unfold renderCameras. destruct (_ =? 0); [done|].
  match goal with
  | |- context [loadCameraImages env ?w0] =>
      destruct (loadCameraImages_frozen env i camera
                  (cameraGrid (dom w0) !! i) w0) as (H1 & H2 & _); [done|]
  end.
  done.
Qed.

Lemma setupMobileRestrictions_held env i camera w :
  i ∈ lockedCameras (ctl w) -> currentImages (ctl w) !! i = Some camera ->
  i ∈ lockedCameras (ctl (setupMobileRestrictions env w))
  ∧ currentImages (ctl (setupMobileRestrictions env w)) !! i = Some camera.
Proof.
  intros Hl Hc. unfold setupMobileRestrictions.
  destruct (negb _); [done|]. destruct (8 <? _); [|done].
  by apply renderCameras_held.
Qed.

Lemma locked_image_kept env ev i camera w :
  ev ≠ PageLoad ->
  i ∈ lockedCameras (ctl w) -> currentImages (ctl w) !! i = Some camera ->
  currentImages (ctl (step env ev w)) !! i = Some camera.
Proof.
  intros Hev Hl Hc.
  assert (Hrender : forall w0,
    i ∈ lockedCameras (ctl w0) -> currentImages (ctl w0) !! i = Some camera ->
    currentImages (ctl (renderCameras env w0)) !! i = Some camera).
  { intros w0 H1 H2. by apply renderCameras_held. }
  assert (Hf : frozen i camera (cameraGrid (dom w) !! i) w) by done.
  destruct ev as [| | | | |v| |v|v|v|v|b|j|]; unfold step; try done;
    try (destruct (started (ctl w)); [|done]).
  - destruct (cycling _); [|done].
    by apply (cycleCameras_frozen env) in Hf as (_ & ? & _).
  - by apply (updateCameraImages_frozen env) in Hf as (_ & ? & _).
  - unfold eff_catch, loadCameras.
    destruct (cameras_response env (sent w)); [|done]. simpl.
    unfold processCameras. by apply Hrender.
  - done.
  - unfold listener.
    apply Hrender; unfold updateCycleTimeOptions; by destruct (nan_lt _ _).
  - unfold listener. by destruct (cycling (config (ctl w))).
  - unfold listener. simpl. by destruct (cycling (config (ctl w))).
  - by apply Hrender.
  - by apply Hrender.
  - by apply Hrender.
  - by apply Hrender.
  - unfold toggleCameraLock.
    destruct (cameraGrid (dom w) !! j) as [[| |c|]|]; try done;
      by destruct (bool_decide (j ∈ lockedCameras (ctl w))).
  - unfold listener. simpl. destruct (Bool.eqb _ _); [done|].
    match goal with
    | |- context [setupMobileRestrictions env ?w0] =>
        destruct (setupMobileRestrictions_held env i camera w0) as [H1 H2];
          [done..|]
    end.
    by apply Hrender.
Qed.

(** ** C8: a locked slot after the grid is rendered anew *)

Lemma renderCameras_locked_out env i camera w :
  i ∈ lockedCameras (ctl w) -> currentImages (ctl w) !! i = Some camera ->
  locked_out i camera (renderCameras env w).
Proof.
  intros Hl Hc. unfold renderCameras, locked_out.
  destruct (_ =? 0).
  { simpl. repeat split; try done. left. apply lookup_empty. }
  match goal with
  | |- context [loadCameraImages env ?w0] =>
      destruct (loadCameraImages_frozen env i camera
                  (cameraGrid (dom w0) !! i) w0) as (H1 & H2 & H3); [done|]
  end.
  split; [done|]. split; [done|]. rewrite H3. simpl.
  match goal with
  | |- shows_no_camera (?m !! i) => destruct (m !! i) as [cell|] eqn:Hcell
  end; [|by left].
  apply elem_of_list_to_map_2, elem_of_app in Hcell.
  destruct Hcell as [Hcell|Hcell];
    apply list_elem_of_fmap in Hcell as (k & [= _ ->] & _).
  - right. by right.
  - right. by left.
Qed.

Lemma step_locked_out env ev i camera w :
  ev ≠ PageLoad -> ev ≠ LockClick i ->
  locked_out i camera w -> locked_out i camera (step env ev w).
Proof.
  intros Hev Hclick (Hl & Hc & Hcell).
  assert (Hf : frozen i camera (cameraGrid (dom w) !! i) w) by done.
  assert (Hkeep : forall w',
    frozen i camera (cameraGrid (dom w) !! i) w' -> locked_out i camera w').
  { intros w' (H1 & H2 & H3). unfold locked_out. by rewrite H3. }
  destruct ev as [| | | | |v| |v|v|v|v|b|j|]; unfold step; try done;
    try (destruct (started (ctl w)); [|done]).
  - destruct (cycling _); [|done]. by apply Hkeep, cycleCameras_frozen.
  - by apply Hkeep, updateCameraImages_frozen.
  - unfold eff_catch, loadCameras.
    destruct (cameras_response env (sent w)); [|done]. simpl.
    unfold processCameras.
    match goal with
    | |- context [renderCameras env ?w0] =>
        destruct (renderCameras_locked_out env i camera w0) as (?&?&?);
          done
    end.
  - done.
  - unfold listener.
    apply renderCameras_locked_out; unfold updateCycleTimeOptions;
      by destruct (nan_lt _ _).
  - unfold listener. by destruct (cycling (config (ctl w))).
  - unfold listener. simpl. by destruct (cycling (config (ctl w))).
  - by apply renderCameras_locked_out.
  - by apply renderCameras_locked_out.
  - by apply renderCameras_locked_out.
  - by apply renderCameras_locked_out.
  - assert (Hj : j ≠ i) by congruence.
    unfold toggleCameraLock, locked_out.
    destruct (cameraGrid (dom w) !! j) as [[| |c|]|]; try done;
      destruct (bool_decide (j ∈ lockedCameras (ctl w))); simpl;
      (split; [|done]);
      rewrite ?elem_of_difference, ?elem_of_union, ?elem_of_singleton;
      auto.
  - unfold listener. simpl. destruct (Bool.eqb _ _); [done|].
    match goal with
    | |- context [setupMobileRestrictions env ?w0] =>
        destruct (setupMobileRestrictions_held env i camera w0) as [H1 H2];
          [done..|]
    end.
    by apply renderCameras_locked_out.
Qed.

(** C8.  The full reload takes the camera of a locked slot off the page and
    nothing brings it back.  The controller is started, slot [i] is locked
    and holds an image, and the camera request is answered: after the
    [ReloadTick] the slot is still locked and [currentImages[i]] is still
    that camera, but the cell shows no camera (the grid was built anew and
    [loadCameraImages] skipped the slot), and it shows none after any
    further events, as long as the page is not loaded anew and the lock of
    the slot is not clicked. *)
Theorem locked_slot_lost_on_reload (env : Env) (w : World) (i : Z)
    (camera : Camera) (rawCameras : list RawCamera) :
  started (ctl w) = true ->
  i ∈ lockedCameras (ctl w) ->
  currentImages (ctl w) !! i = Some camera ->
  cameras_response env (sent w) = Some rawCameras ->
  let w' := step env ReloadTick w in
  locked_out i camera w'
  ∧ forall evs, PageLoad ∉ evs -> LockClick i ∉ evs ->
      locked_out i camera (run env evs w').
Proof.
  intros Hs Hl Hc Hresp w'.
  assert (H0 : locked_out i camera w').
  { subst w'. simpl. rewrite Hs. unfold eff_catch, loadCameras.
    rewrite Hresp. simpl. unfold processCameras.
    match goal with
    | |- context [renderCameras env ?w0] =>
        destruct (renderCameras_locked_out env i camera w0) as (?&?&?);
          done
    end. }
  split; [done|]. clear Hs Hl Hc Hresp. generalize dependent w'.
  intros w' H0 evs. revert w' H0. unfold run.
  induction evs as [|ev evs IH]; intros w' H0 Hp Hk; [done|].
  apply not_elem_of_cons in Hp as [Hp1 Hp2].
  apply not_elem_of_cons in Hk as [Hk1 Hk2].
  simpl. apply IH; [|done|done]. by apply step_locked_out.
Qed.

Example locked_slot_reload_sample :
  shown_preset (cameraGrid (dom locked_page) !! 2) = Some "C"
  ∧ cameraGrid (dom (step camera_env ReloadTick locked_page)) !! 2
    = Some Loading
  ∧ cameraGrid
      (dom (run camera_env [ReloadTick; UpdateTick; CycleTick; UpdateTick]
                locked_page)) !! 2
    = Some Loading
  ∧ shown_preset
      (cameraGrid (dom (step camera_env ReloadTick locked_page)) !! 1)
    = Some "B".
Proof. vm_compute. repeat split; reflexivity. Qed.

Lemma locked_slot_lost_on_reload_witness :
  shown_preset (cameraGrid (dom locked_page) !! 2) = Some "C"
  ∧ locked_out 2 (processedCamera sample_now "Oulu"
                    (sample_station "Tie_C_Oulu_" [])
                    (sample_preset "C" (sample_now - 60000)))
      (run camera_env [UpdateTick; CycleTick]
           (step camera_env ReloadTick locked_page)).
Proof.
  split; [vm_compute; reflexivity|].
  assert (Hs : started (ctl locked_page) = true) by (vm_compute; reflexivity).
  assert (Hl : 2 ∈ lockedCameras (ctl locked_page)).
  { apply (bool_decide_unpack _). vm_compute. exact I. }
  assert (Hc : currentImages (ctl locked_page) !! 2
               = Some (processedCamera sample_now "Oulu"
                         (sample_station "Tie_C_Oulu_" [])
                         (sample_preset "C" (sample_now - 60000)))).
  { vm_compute. reflexivity. }
  assert (Hr : cameras_response camera_env (sent locked_page)
               = Some mixed_response) by reflexivity.
  pose proof (locked_slot_lost_on_reload camera_env locked_page 2 _ _
                Hs Hl Hc Hr) as [_ Hlater].
  apply Hlater; rewrite !not_elem_of_cons;
    repeat (split; [discriminate|]); apply not_elem_of_nil.
Defined.

(** ** C9: the minimum cycling interval *)

Lemma minCycleTime_table :
  minCycleTime 1 = 2000 ∧ minCycleTime 2 = 3000 ∧ minCycleTime 4 = 5000
  ∧ minCycleTime 6 = 8000 ∧ minCycleTime 8 = 10000
  ∧ minCycleTime 12 = 15000 ∧ minCycleTime 16 = 20000
  ∧ forall n, n ∉ [1; 2; 4; 6; 8; 12; 16] -> minCycleTime n = 10000.
Proof.
  repeat (split; [reflexivity|]).
  intros n Hn. rewrite !not_elem_of_cons in Hn.
  unfold minCycleTime, minCycleTimes.
  rewrite !lookup_insert_ne by lia.
  by rewrite lookup_singleton_ne by lia.
Qed.



Example updateCycleTimeOptions_sample :
  cyclingInterval (config (ctl (updateCycleTimeOptions sixteen_world)))
  = 20000
  ∧ intervalValue (dom (updateCycleTimeOptions sixteen_world)) = Some 20000.
Proof. vm_compute. split; reflexivity. Qed.


(** The selector stays in sync: a choice of the user sets both, and
    [updateCycleTimeOptions] sets both when the page offers the minimum. *)
Lemma interval_in_sync_preserved (env : Env) (w : World) :
  (forall value, interval_in_sync (listener env (CyclingIntervalChange value) w))
  ∧ (interval_in_sync w ->
     minCycleTime (cameraCount (config (ctl w)))
       ∈ map fst (intervalOptions (dom w)) ->
     interval_in_sync (updateCycleTimeOptions w)).
Proof.
  split.
  - intros value. unfold interval_in_sync. simpl.
    by destruct (cycling (config (ctl w))).
  - unfold interval_in_sync. intros Hsync Hopt.
    unfold updateCycleTimeOptions. rewrite Hsync. simpl.
    destruct (Z.ltb_spec (cyclingInterval (config (ctl w)))
                (minCycleTime (cameraCount (config (ctl w))))); simpl; [|done].
    unfold select_value.
    set (m := minCycleTime _) in *.
    assert (existsb (fun o : Z * bool => fst o =? m)
              (map (fun o => (fst o, fst o <? m)) (intervalOptions (dom w)))
            = true) as ->; [|done].
    apply existsb_exists.
    apply list_elem_of_fmap in Hopt as ([v d] & -> & Hin).
    exists (v, v <? v). split; [|apply Z.eqb_refl].
    apply list_elem_of_In, list_elem_of_fmap. by exists (v, d).
Qed.

(** ** C5: what ingestion deduplicates *)

Section SetFacts.
Context {A : Type} `{EqDecision A}.

Lemma set_add_spec (acc : list A) (x y : A) :
  y ∈ JS.set_add acc x <-> y ∈ acc ∨ y = x.
Proof.
  unfold JS.set_add. destruct (decide (x ∈ acc)).
  - split; [auto|]. intros [?| ->]; done.
  - rewrite elem_of_app, list_elem_of_singleton. done.
Qed.

Lemma set_add_NoDup (acc : list A) (x : A) :
  NoDup acc -> NoDup (JS.set_add acc x).
Proof.
  intros Hacc. unfold JS.set_add. destruct (decide (x ∈ acc)); [done|].
  apply NoDup_app. split; [done|]. split; [|apply NoDup_singleton].
  intros y Hy ->%list_elem_of_singleton. done.
Qed.

Lemma foldl_set_add_spec (l acc : list A) (y : A) :
  y ∈ foldl JS.set_add acc l <-> y ∈ acc ∨ y ∈ l.
Proof.
  revert acc. induction l as [|x l IH]; intros acc; simpl.
  - rewrite elem_of_nil. tauto.
  - rewrite IH, set_add_spec, elem_of_cons. tauto.
Qed.

Lemma foldl_set_add_NoDup (l acc : list A) :
  NoDup acc -> NoDup (foldl JS.set_add acc l).
Proof.
  revert acc. induction l as [|x l IH]; intros acc Hacc; simpl; [done|].
  by apply IH, set_add_NoDup.
Qed.

Lemma spread_set_spec (l : list A) :
  NoDup (JS.spread_set l) ∧ forall y, y ∈ JS.spread_set l <-> y ∈ l.
Proof.
  unfold JS.spread_set. split.
  - apply foldl_set_add_NoDup, NoDup_nil_2.
  - intros y. rewrite foldl_set_add_spec, elem_of_nil. tauto.
Qed.

End SetFacts.

Lemma sorted_names_spec (l : list string) :
  NoDup (JS.sort_strings (JS.spread_set l))
  ∧ forall y, y ∈ JS.sort_strings (JS.spread_set l) <-> y ∈ l.
Proof.
  destruct (spread_set_spec l) as [Hnd Hin]. unfold JS.sort_strings. split.
  - by rewrite sort_perm.
  - intros y. by rewrite sort_perm.
Qed.

Lemma renderCameras_outside env w :
  outside_images (renderCameras env w) = outside_images w.
Proof.
  unfold renderCameras. destruct (_ =? 0); [done|].
  by rewrite loadCameraImages_outside.
Qed.

Lemma kept_presetIds (turf : Turf) (now : Z) (data : option FeatureCollection)
    (f : option Z -> bool) (rawCameras : list RawCamera) :
  map presetId
      (List.filter (fun c => f (measuredTime c))
                   (processedCameras turf now data rawCameras))
  = map rp_presetId
        (List.filter (fun p => f (rp_measuredTime p))
                     (flat_map rc_presets rawCameras)).
Proof.
  unfold processedCameras.
  induction rawCameras as [|camera rest IH]; simpl; [done|].
  rewrite !List.filter_app, !map_app, IH. f_equal.
  generalize (getMunicipalityForCamera turf data (rc_lat camera)
                                       (rc_lon camera)) as place.
  intros place. induction (rc_presets camera) as [|p ps IHp]; simpl; [done|].
  destruct (f (rp_measuredTime p)); simpl; by rewrite IHp.
Qed.

Lemma filter_all {A} (l : list A) : List.filter (fun _ => true) l = l.
Proof. induction l as [|x l IH]; simpl; [done|]. by rewrite IH. Qed.

(** C5 as stated fails: a response that lists a preset under two stations
    is stored with both entries. *)
Lemma ingestion_as_stated_fails :
  ¬ ingestion_as_stated sample_env box_turf repeated_response fresh_world.
Proof.
  intros (Hnd & _). vm_compute in Hnd.
  apply NoDup_cons in Hnd as [Hnotin _]. apply Hnotin.
  apply elem_of_cons. by left.
Qed.

(** C5 (amended).  After [processCameras] the municipality selector and the
    station selector list, after their first option, the municipalities and
    the station names of the stored cameras, each once.  The stored list
    itself is not deduplicated: it has one entry for every preset of the
    response that the freshness filter keeps, so it is free of repeated
    [presetId]s exactly when those presets are. *)
Theorem processCameras_selectors_distinct (env : Env) (turf : Turf)
    (rawCameras : list RawCamera) (w : World) :
  let w' := processCameras env turf rawCameras w in
  let kept := kept_presets (config (ctl w)) (date_now env) rawCameras in
  (NoDup (listed_names (municipalityOptions (dom w')))
   ∧ forall m, m ∈ listed_names (municipalityOptions (dom w'))
               <-> m ∈ map municipality (cameras (ctl w')))
  ∧ (NoDup (listed_names (stationOptions (dom w')))
     ∧ forall s, s ∈ listed_names (stationOptions (dom w'))
                 <-> s ∈ map stationName (cameras (ctl w')))
  ∧ map presetId (cameras (ctl w')) ≡ₚ map rp_presetId kept
  ∧ (NoDup (map presetId (cameras (ctl w')))
     <-> NoDup (map rp_presetId kept)).
Proof.
  simpl. unfold processCameras.
  match goal with
  | |- context [renderCameras env ?w0] =>
      pose proof (renderCameras_outside env w0) as Hout; set (w1 := w0) in *
  end.
  unfold outside_images in Hout.
  injection Hout as Hcams _ _ _ _ _ _ _ _ Hm Hs _ _ _ _ _ _.
  rewrite Hcams, Hm, Hs. subst w1. unfold listed_names. simpl.
  rewrite !map_map. simpl. rewrite !map_id.
  set (processed := processedCameras _ _ _ _).
  set (stored := filterCameras _ _ processed).
  assert (Hperm :
    map presetId stored
    ≡ₚ map rp_presetId
         (kept_presets (config (ctl w)) (date_now env) rawCameras)).
  { subst stored. unfold filterCameras, kept_presets. rewrite sort_perm.
    destruct (dropOldCameras (config (ctl w))); simpl.
    - erewrite List.filter_ext; [|intros c; apply newer_than_age].
      subst processed. by rewrite (kept_presetIds _ _ _ (age_below_4h _)).
    - subst processed.
      pose proof (kept_presetIds turf (date_now env)
                    (municipalityData (ctl w)) (fun _ => true) rawCameras)
        as Hall.
      rewrite !filter_all in Hall. by rewrite filter_all, Hall. }
  split; [apply sorted_names_spec|]. split; [apply sorted_names_spec|].
  split; [exact Hperm|]. by rewrite Hperm.
Qed.

(** ** C6 and C7: storage and data requests *)

(** The storages and the data requests are among what the image loaders
    leave alone. *)
Lemma outside_images_outer w w' :
  outside_images w = outside_images w' ->
  storage (browser w) = storage (browser w')
  ∧ data_requests w = data_requests w'.
Proof.
  unfold outside_images, storage. intros [= _ _ _ _ _ _ _ _ _ _ _ _ _ _ -> -> ->].
  done.
Qed.

Lemma updateCameraImages_outside env w :
  outside_images (updateCameraImages env w) = outside_images w.
Proof.
  unfold updateCameraImages.
  apply (foldl_preserves outside_images). intros s i.
  unfold updateCameraImages_slot.
  destruct (cameraGrid (dom s) !! i) as [[| |c|]|]; try done;
    (destruct (currentImages (ctl s) !! i); [|done]);
    (destruct (negb _); [|done]);
    (destruct (JS.find _ _); [|done]);
    apply loadSingleCamera_outside.
Qed.

Lemma cycleCameras_outer env w :
  storage (browser (cycleCameras env w)) = storage (browser w)
  ∧ data_requests (cycleCameras env w) = data_requests w.
Proof.
  unfold cycleCameras. destruct (_ =? 0); [done|].
  match goal with
  | |- context [loadCameraImages env ?w0] =>
      destruct (outside_images_outer _ _ (loadCameraImages_outside env w0))
        as [-> ->]
  end.
  done.
Qed.

Lemma renderCameras_outer env w :
  storage (browser (renderCameras env w)) = storage (browser w)
  ∧ data_requests (renderCameras env w) = data_requests w.
Proof. apply outside_images_outer, renderCameras_outside. Qed.

Lemma processCameras_outer env turf rawCameras w :
  storage (browser (processCameras env turf rawCameras w))
  = storage (browser w)
  ∧ data_requests (processCameras env turf rawCameras w) = data_requests w.
Proof.
  unfold processCameras.
  match goal with
  | |- context [renderCameras env ?w0] =>
      destruct (renderCameras_outer env w0) as [-> ->]
  end.
  done.
Qed.

Lemma setupMobileRestrictions_outer env w :
  storage (browser (setupMobileRestrictions env w)) = storage (browser w)
  ∧ data_requests (setupMobileRestrictions env w) = data_requests w.
Proof.
  unfold setupMobileRestrictions.
  destruct (negb _); [done|]. destruct (8 <? _); [|done].
  match goal with
  | |- context [renderCameras env ?w0] =>
      destruct (renderCameras_outer env w0) as [-> ->]
  end.
  done.
Qed.

Lemma listener_outer env ev w :
  storage (browser (listener env ev w)) = storage (browser w)
  ∧ data_requests (listener env ev w) = data_requests w.
Proof.
  destruct ev; simpl; try done;
    try match goal with
        | |- context [renderCameras env ?w0] =>
            destruct (renderCameras_outer env w0) as [-> ->]
        end;
    try done.
  - unfold updateCycleTimeOptions. by destruct (nan_lt _ _).
  - by destruct (cycling (config (ctl w))).
  - by destruct (cycling (config (ctl w))).
  - destruct (Bool.eqb _ _); [done|].
    match goal with
    | |- context [renderCameras env ?w0] =>
        destruct (renderCameras_outer env w0) as [-> ->]
    end.
    match goal with
    | |- context [setupMobileRestrictions env ?w0] =>
        destruct (setupMobileRestrictions_outer env w0) as [-> ->]
    end.
    done.
Qed.

Lemma data_requests_send_fetch method url w :
  data_requests (send (Fetch method url) w)
  = data_requests w ++ [Fetch method url].
Proof. unfold data_requests, send. simpl. by rewrite List.filter_app. Qed.

Lemma loadCameras_outer env turf w :
  storage (browser (eff_catch (loadCameras env turf) w)) = storage (browser w)
  ∧ data_requests (eff_catch (loadCameras env turf) w)
    = data_requests w ++ [Fetch "POST" api_url].
Proof.
  unfold eff_catch, loadCameras.
  destruct (cameras_response env (sent w)); simpl.
  - match goal with
    | |- context [processCameras env turf ?raw ?w0] =>
        destruct (processCameras_outer env turf raw w0) as [H1 H2]
    end.
    unfold data_requests in *. simpl in *. rewrite H1, H2.
    by rewrite List.filter_app.
  - by rewrite data_requests_send_fetch.
Qed.

Lemma init_outer env w :
  storage (browser (init env w)) = storage (browser w)
  ∧ data_requests (init env w) = data_requests w ++ fetches env PageLoad w.
Proof.
  unfold init, fetches. destruct (turf_global env) as [turf|];
    [|by rewrite app_nil_r].
  unfold eff_catch, eff_bind, loadMunicipalityData.
  destruct (geojson_response env (sent w)) as [data|]; simpl;
    [|by rewrite data_requests_send_fetch].
  set (w1 := with_ctl (set_municipalityData (Some data))
                      (send (Fetch "GET" geojson_url) w)).
  assert (H1 : storage (browser w1) = storage (browser w)
               ∧ data_requests w1
                 = data_requests w ++ [Fetch "GET" geojson_url]).
  { split; [done|]. apply data_requests_send_fetch. }
  destruct (loadCameras_outer env turf w1) as [Hs Hd].
  unfold eff_catch in Hs, Hd.
  destruct (loadCameras env turf w1) as [w2 [[]|]] eqn:E; simpl in *.
  - unfold eff_do. simpl.
    match goal with
    | |- context [setupMobileRestrictions env ?w0] =>
        destruct (setupMobileRestrictions_outer env w0) as [-> ->]
    end.
    destruct H1 as [H1s H1d]. split.
    + etransitivity; [exact Hs|exact H1s].
    + etransitivity; [exact Hd|]. rewrite H1d. by rewrite <- app_assoc.
  - destruct H1 as [H1s H1d]. split.
    + etransitivity; [exact Hs|exact H1s].
    + etransitivity; [exact Hd|]. rewrite H1d. by rewrite <- app_assoc.
Qed.

(** What every event does to the storages and to the data requests. *)
Lemma step_outer env ev w :
  storage (browser (step env ev w)) = storage (browser w)
  ∧ data_requests (step env ev w) = data_requests w ++ fetches env ev w.
Proof.
  destruct ev; unfold step, fetches; rewrite ?app_nil_r;
    try (destruct (started (ctl w)); [apply listener_outer|done]).
  - apply (init_outer env
             (with_ctl (fun _ => new_controller (detect_mobile env)) w)).
  - destruct (cycling _); [apply cycleCameras_outer|done].
  - destruct (started (ctl w)); [|done].
    apply outside_images_outer, updateCameraImages_outside.
  - destruct (started (ctl w)); [|by rewrite app_nil_r].
    apply loadCameras_outer.
  - by destruct (started (ctl w)).
  - unfold toggleCameraLock.
    destruct (cameraGrid (dom w) !! _) as [[| |c|]|]; try done;
      by destruct (bool_decide _).
Qed.

Lemma show_windows_browser shown starts p :
  JQuery.page_browser (JQuery.show_windows shown starts p)
  = JQuery.page_browser p.
Proof.
  assert (Htiles : forall ts i q,
    JQuery.page_browser (fst (JQuery.show_tiles shown ts i q))
    = JQuery.page_browser q).
  { induction ts as [|t ts IH]; intros i q; simpl; [done|].
    destruct (JS.index shown i); [|done]. by rewrite IH. }
  revert p. induction starts as [|i starts IH]; intros p; [done|].
  pose proof (Htiles [1; 2; 3; 4] i p) as Hp.
  cbn [JQuery.show_windows].
  destruct (JQuery.show_tiles shown [1; 2; 3; 4] i p) as [p' []];
    cbn [fst] in Hp.
  - by rewrite IH.
  - done.
Qed.

(** C6 as stated fails: a poll of the jQuery script that gets an answer
    writes the number of cameras into [sessionStorage]. *)
Lemma no_storage_write_as_stated_fails :
  ¬ no_storage_write_as_stated sample_env fresh_world empty_page.
Proof.
  intros [_ H].
  assert (Hkey :
    sessionStorage
      (JQuery.page_browser (JQuery.conditionalRender sample_env 0 4 empty_page))
      !! "camerasInOulu" = Some "0").
  { vm_compute. reflexivity. }
  apply (f_equal fst) in H. unfold storage in H. cbn [fst] in H.
  rewrite H in Hkey.
  vm_compute in Hkey. discriminate.
Qed.

(** C6 (amended).  No event of the controller writes to [sessionStorage] or
    [localStorage].  A poll of the jQuery script never writes to
    [localStorage] and, when its request is answered, stores the number of
    cameras less than four hours old under the key [camerasInOulu] of
    [sessionStorage], leaving the other keys as they are. *)
Theorem storage_writes (env : Env) :
  (forall ev w,
     sessionStorage (browser (step env ev w)) = sessionStorage (browser w)
     ∧ localStorage (browser (step env ev w)) = localStorage (browser w))
  ∧ forall startNum endNum p,
      let b := JQuery.page_browser p in
      let b' :=
        JQuery.page_browser (JQuery.conditionalRender env startNum endNum p) in
      localStorage b' = localStorage b
      ∧ sessionStorage b'
        = match cameras_response env (length (requests b)) with
          | Some cameraArray =>
              <["camerasInOulu" :=
                  JS.string_of_nat
                    (length (JQuery.camerasInOulu_noOld (date_now env)
                                                        cameraArray))]>
                (sessionStorage b)
          | None => sessionStorage b
          end.
Proof.
  split.
  - intros ev w. destruct (step_outer env ev w) as [Hs _].
    unfold storage in Hs. by injection Hs as -> ->.
  - intros startNum endNum p. simpl. unfold JQuery.conditionalRender.
    destruct (cameras_response env _); [|done].
    unfold JQuery.success. by rewrite show_windows_browser.
Qed.

(** C7 as stated fails: a page load that succeeds has sent two data
    requests. *)
Lemma one_data_request_as_stated_fails :
  ¬ one_data_request_as_stated sample_env fresh_world.
Proof.
  intros H. destruct H as [r Hr]; [vm_compute; reflexivity|].
  vm_compute in Hr. discriminate.
Qed.

(** C7 (amended).  The controller sends data requests to two addresses: a
    page load sends none without the geometry library, otherwise a [GET] of
    the municipality file and, if that is answered, a [POST] to the camera
    endpoint; the half-hourly reload sends the [POST] again; no other event
    sends a data request. *)
Theorem data_requests_of_events (env : Env) (ev : Event) (w : World) :
  data_requests (step env ev w) = data_requests w ++ fetches env ev w
  ∧ (forall r, r ∈ fetches env ev w ->
       r = Fetch "GET" geojson_url ∨ r = Fetch "POST" api_url)
  ∧ (ev ≠ PageLoad -> ev ≠ ReloadTick -> fetches env ev w = [])
  ∧ (ev = PageLoad -> is_Some (turf_global env) ->
     is_Some (geojson_response env (sent w)) ->
     fetches env ev w = [Fetch "GET" geojson_url; Fetch "POST" api_url])
  ∧ geojson_url ≠ api_url.
Proof.
  split; [apply step_outer|]. split; [|split; [|split]].
  - intros r. unfold fetches. destruct ev; try (by intros ?%elem_of_nil).
    + destruct (turf_global env); [|by intros ?%elem_of_nil].
      destruct (geojson_response env (sent w)).
      * rewrite !elem_of_cons, elem_of_nil. tauto.
      * rewrite !elem_of_cons, elem_of_nil. tauto.
    + destruct (started (ctl w)); [|by intros ?%elem_of_nil].
      rewrite !elem_of_cons, elem_of_nil. tauto.
  - intros H1 H2. by destruct ev.
  - intros -> [turf Hturf] [data Hdata]. unfold fetches.
    by rewrite Hturf, Hdata.
  - discriminate.
Qed.

Lemma data_requests_of_events_witness :
  data_requests (step sample_env PageLoad fresh_world)
  = [Fetch "GET" geojson_url; Fetch "POST" api_url]
  ∧ fetches sample_env (CameraCountChange 8) fresh_world = [].
Proof.
  destruct (data_requests_of_events sample_env PageLoad fresh_world)
    as (Hstep & _ & _ & Hload & _).
  destruct (data_requests_of_events sample_env (CameraCountChange 8)
              fresh_world) as (_ & _ & Hnone & _).
  split.
  - rewrite Hstep, Hload; [reflexivity|reflexivity|by eexists|by eexists].
  - apply Hnone; discriminate.
Defined.

(** * Further properties of the controller *)

(** ** Sorting an ordered list *)

Lemma sort_sorted_id {A} (before : A -> A -> bool) (R : relation A)
    (l : list A) :
  (forall x y, R x y -> before x y = true) ->
  StronglySorted R l -> JS.sort before l = l.
Proof.
  intros Hb. induction 1 as [|x l Hs IH Hx]; simpl; [done|].
  fold (JS.sort before l). rewrite IH.
  destruct l as [|y l']; simpl; [done|].
  apply Forall_cons in Hx as [Hxy _]. by rewrite (Hb _ _ Hxy).
Qed.

Lemma filter_id {A} (f : A -> bool) (l : list A) :
  Forall (fun x => f x = true) l -> List.filter f l = l.
Proof.
  induction 1 as [|x l Hx _ IH]; simpl; [done|]. by rewrite Hx, IH.
Qed.

Lemma newest_first_before (a b : Camera) :
  newest_first a b -> freshness_before a b = true.
Proof.
  unfold newest_first, freshness_before, freshness_compare.
  destruct (measuredTime a), (measuredTime b); try done.
  intros H. apply Z.leb_le. lia.
Qed.

Lemma sort_dated_sorted (l : list Camera) :
  Forall dated l -> StronglySorted newest_first (JS.sort freshness_before l).
Proof.
  apply (sort_sorted freshness_before dated newest_first).
  - intros x y [tx Hx] [ty Hy]. unfold freshness_before, freshness_compare,
      newest_first. rewrite Hx, Hy. intros H%Z.leb_le. lia.
  - intros x y [tx Hx] [ty Hy]. unfold freshness_before, freshness_compare,
      newest_first. rewrite Hx, Hy. intros H%Z.leb_gt. lia.
  - intros x y z. unfold newest_first.
    destruct (measuredTime x), (measuredTime y), (measuredTime z);
      try done; lia.
Qed.

(** ** [filterCameras] *)

(** X1.  With [dropOldCameras] off, [filterCameras] drops nothing: its result
    is a permutation of its input, and it is ordered newest first when every
    camera has a valid timestamp. *)
Theorem filterCameras_keeps_all (config : Config) (now : Z)
    (cameras : list Camera) :
  dropOldCameras config = false ->
  filterCameras config now cameras ≡ₚ cameras
  ∧ (Forall dated cameras ->
     StronglySorted newest_first (filterCameras config now cameras)).
Proof.
  intros Hoff. unfold filterCameras. rewrite Hoff. split.
  - apply sort_perm.
  - apply sort_dated_sorted.
Qed.

Lemma filterCameras_keeps_all_witness :
  map presetId
      (filterCameras (set_dropOldCameras false initial_config) sample_now
                     sample_cameras)
  ≡ₚ map presetId sample_cameras.
Proof.
  destruct (filterCameras_keeps_all (set_dropOldCameras false initial_config)
              sample_now sample_cameras eq_refl) as [Hperm _].
  by rewrite Hperm.
Defined.

(** X2.  With [dropOldCameras] on, filtering at the same instant is
    idempotent: a list [filterCameras] has produced is returned as it is. *)
Theorem filterCameras_idempotent (config : Config) (now : Z)
    (cameras : list Camera) :
  dropOldCameras config = true ->
  filterCameras config now (filterCameras config now cameras)
  = filterCameras config now cameras.
Proof.
  intros Hon. unfold filterCameras. rewrite Hon.
  set (fresh := fun camera : Camera =>
                  newer_than (measuredTime camera) (now - fourHours)).
  assert (Hfresh : Forall (fun c => fresh c = true)
                          (JS.sort freshness_before (List.filter fresh cameras))).
  { rewrite sort_perm. apply Forall_forall.
    by intros c [_ Hc]%list_elem_of_In%filter_In. }
  rewrite (filter_id fresh _ Hfresh).
  apply (sort_sorted_id freshness_before newest_first);
    [apply newest_first_before|].
  apply sort_dated_sorted. apply Forall_forall.
  intros c [_ Hc]%list_elem_of_In%filter_In. subst fresh. simpl in Hc.
  unfold dated. destruct (measuredTime c); [by eexists|done].
Qed.

Lemma filterCameras_idempotent_witness :
  filterCameras initial_config sample_now
    (filterCameras initial_config sample_now sample_cameras)
  = filterCameras initial_config sample_now sample_cameras.
Proof.
  exact (filterCameras_idempotent initial_config sample_now sample_cameras
           eq_refl).
Defined.

(** ** [getFilteredCameras] *)

Lemma getFilteredCameras_filter (config : Config) (cameras : list Camera) :
  getFilteredCameras config cameras
  = List.filter (selected_by config) cameras.
Proof.
  assert (Heqb : forall s t : string, String.eqb s t = bool_decide (s = t)).
  { intros s t. destruct (String.eqb_spec s t).
    - by rewrite bool_decide_true.
    - by rewrite bool_decide_false. }
  unfold getFilteredCameras, selected_by.
  destruct (String.eqb_spec (cyclingMode config) "municipality") as [Hm|Hm];
    simpl.
  - destruct (JS.truthy (selectedMunicipality config)).
    + apply List.filter_ext. intros c. apply Heqb.
    + rewrite Hm. simpl. symmetry. apply filter_id, Forall_forall. done.
  - destruct (String.eqb (cyclingMode config) "station"); simpl.
    + destruct (JS.truthy (selectedStation config)).
      * apply List.filter_ext. intros c. apply Heqb.
      * symmetry. apply filter_id, Forall_forall. done.
    + symmetry. apply filter_id, Forall_forall. done.
Qed.

Lemma filter_sublist {A} (f : A -> bool) (l : list A) :
  List.filter f l `sublist_of` l.
Proof.
  induction l as [|x l IH]; simpl; [done|].
  destruct (f x); by constructor.
Qed.

Lemma filter_filter_id {A} (f : A -> bool) (l : list A) :
  List.filter f (List.filter f l) = List.filter f l.
Proof.
  apply filter_id, Forall_forall.
  by intros x [_ Hx]%list_elem_of_In%filter_In.
Qed.

Lemma StronglySorted_sublist_of {A} (R : relation A) (l k : list A) :
  l `sublist_of` k -> StronglySorted R k -> StronglySorted R l.
Proof.
  induction 1 as [|x l k Hlk IH|x l k Hlk IH]; intros Hs.
  - done.
  - apply StronglySorted_inv in Hs as [Hs Hx]. constructor; [by apply IH|].
    apply Forall_forall. intros y Hy.
    eapply Forall_forall in Hx; [exact Hx|]. by eapply sublist_subseteq.
  - apply StronglySorted_inv in Hs as [Hs _]. by apply IH.
Qed.

(** X3.  [getFilteredCameras] selects without reordering: its result is a
    sublist of the camera list, it keeps a newest-first order, and applying
    it again changes nothing. *)
Theorem getFilteredCameras_selects (config : Config) (cameras : list Camera) :
  getFilteredCameras config cameras `sublist_of` cameras
  ∧ (StronglySorted newest_first cameras ->
     StronglySorted newest_first (getFilteredCameras config cameras))
  ∧ getFilteredCameras config (getFilteredCameras config cameras)
    = getFilteredCameras config cameras.
Proof.
  rewrite !getFilteredCameras_filter. split; [apply filter_sublist|].
  split; [apply StronglySorted_sublist_of, filter_sublist|].
  apply filter_filter_id.
Qed.

Lemma getFilteredCameras_selects_witness :
  StronglySorted newest_first
    (getFilteredCameras
       (set_selectedMunicipality "Oulu"
          (set_cyclingMode "municipality" initial_config))
       (filterCameras initial_config sample_now sample_cameras)).
Proof.
  apply (getFilteredCameras_selects
           (set_selectedMunicipality "Oulu"
              (set_cyclingMode "municipality" initial_config))).
  apply sort_dated_sorted. vm_compute.
  repeat (constructor; [by eexists|]). constructor.
Defined.

(** ** Ingestion *)

Lemma nimi_or_unknown_sound (f : Feature) (name : string) :
  nimi_or_unknown f = Some name ->
  name ≠ EmptyString ∧ (name = "Unknown" ∨ nimi_of f = Some name).
Proof.
  unfold nimi_or_unknown, nimi_of.
  destruct (properties f) as [props|]; simpl; [|done].
  destruct (nimi props) as [[|c s]|]; simpl; intros [= <-]; split;
    try done; auto.
Qed.

Lemma scan_features_sound (turf : Turf) (pt : TurfFeature)
    (fs : list Feature) (name : string) :
  scan_features turf pt fs = Some (Some name) ->
  name ≠ EmptyString
  ∧ (name = "Unknown" ∨ exists f, f ∈ fs ∧ nimi_of f = Some name).
Proof.
  induction fs as [|f fs IH]; simpl; [done|].
  assert (Hrest : scan_features turf pt fs = Some (Some name) ->
    name ≠ EmptyString
    ∧ (name = "Unknown" ∨ exists f0, f0 ∈ f :: fs ∧ nimi_of f0 = Some name)).
  { intros H. destruct (IH H) as [Hne [Hu|(f0 & Hin & Hn)]]; split; auto.
    right. exists f0. split; [by apply elem_of_cons; right|done]. }
  assert (Hhere : forall r, nimi_or_unknown f = r ->
    (name0 ← r; Some (Some name0)) = Some (Some name) ->
    name ≠ EmptyString
    ∧ (name = "Unknown" ∨ exists f0, f0 ∈ f :: fs ∧ nimi_of f0 = Some name)).
  { intros [n|] Hr; simpl; [|done]. intros [= ->].
    destruct (nimi_or_unknown_sound f name Hr) as [Hne [Hu|Hn]]; split; auto.
    right. exists f. split; [by apply elem_of_cons; left|done]. }
  destruct (geometry f) as [[cs|cs|]|]; try exact Hrest.
  - destruct (polygon turf cs) as [poly|]; simpl; [|done].
    destruct (booleanPointInPolygon turf pt poly) as [[]|]; simpl; [|done..].
    by apply Hhere.
  - destruct (multiPolygon turf cs) as [poly|]; simpl; [|done].
    destruct (booleanPointInPolygon turf pt poly) as [[]|]; simpl; [|done..].
    by apply Hhere.
Qed.

Lemma municipality_lookup_sound (turf : Turf)
    (data : option FeatureCollection) (lat lon : Q) :
  getMunicipalityForCamera turf data lat lon ≠ EmptyString
  ∧ (getMunicipalityForCamera turf data lat lon = "Unknown"
     ∨ exists fc f,
         data = Some fc ∧ f ∈ features fc
         ∧ nimi_of f = Some (getMunicipalityForCamera turf data lat lon)).
Proof.
  unfold getMunicipalityForCamera.
  destruct data as [fc|]; [|by split; [|left]].
  destruct (point turf [lon; lat]) as [pt|]; simpl; [|by split; [|left]].
  destruct (scan_features turf pt (features fc)) as [[name|]|] eqn:E;
    [|by split; [|left]..].
  destruct (scan_features_sound turf pt _ name E) as [Hne [Hu|(f & Hin & Hn)]].
  - by split; [|left].
  - split; [done|]. right. by exists fc, f.
Qed.

(** X4.  The municipality of a camera is never the empty string: it is
    ['Unknown'] or the [nimi] of a feature of the municipality data. *)
Theorem getMunicipalityForCamera_sound (turf : Turf)
    (data : option FeatureCollection) (lat lon : Q) :
  let r := getMunicipalityForCamera turf data lat lon in
  r ≠ EmptyString
  ∧ (r = "Unknown"
     ∨ exists fc f, data = Some fc ∧ f ∈ features fc ∧ nimi_of f = Some r).
Proof. apply municipality_lookup_sound. Qed.

Lemma processCameras_result (env : Env) (turf : Turf)
    (rawCameras : list RawCamera) (w : World) :
  let processed :=
    processedCameras turf (date_now env) (municipalityData (ctl w))
                     rawCameras in
  let stored := filterCameras (config (ctl w)) (date_now env) processed in
  let w' := processCameras env turf rawCameras w in
  allCameras (ctl w') = processed
  ∧ cameras (ctl w') = stored
  ∧ config (ctl w') = config (ctl w)
  ∧ municipalityData (ctl w') = municipalityData (ctl w)
  ∧ currentCycleIndex (ctl w') = currentCycleIndex (ctl w)
  ∧ lockedCameras (ctl w') = lockedCameras (ctl w)
  ∧ municipalityOptions (dom w')
    = (EmptyString, "All Municipalities")
        :: map (fun m => (m, m))
               (JS.sort_strings (JS.spread_set (map municipality stored)))
  ∧ stationOptions (dom w')
    = (EmptyString, "All Stations")
        :: map (fun s => (s, JS.replace_underscores s))
               (JS.sort_strings (JS.spread_set (map stationName stored))).
Proof.
  simpl. unfold processCameras.
  match goal with
  | |- context [renderCameras env ?w0] =>
      pose proof (renderCameras_outside env w0) as Hout; set (w1 := w0) in *
  end.
  unfold outside_images in Hout.
  injection Hout as Hcams Hall Hdata Hidx Hlock _ _ _ Hcfg Hm Hs _ _ _ _ _ _.
  by rewrite Hcams, Hall, Hdata, Hidx, Hlock, Hcfg, Hm, Hs.
Qed.

Lemma processedCameras_elem (turf : Turf) (now : Z)
    (data : option FeatureCollection) (rawCameras : list RawCamera)
    (c : Camera) :
  c ∈ processedCameras turf now data rawCameras <->
  exists station preset,
    station ∈ rawCameras ∧ preset ∈ rc_presets station
    ∧ c = processedCamera now
            (getMunicipalityForCamera turf data (rc_lat station)
                                      (rc_lon station))
            station preset.
Proof.
  unfold processedCameras. rewrite list_elem_of_In, in_flat_map. split.
  - intros (station & Hs & Hc). apply in_map_iff in Hc as (preset & <- & Hp).
    exists station, preset. by rewrite !list_elem_of_In.
  - intros (station & preset & Hs & Hp & ->). exists station.
    rewrite <- list_elem_of_In. split; [done|].
    apply in_map_iff. exists preset. by rewrite <- list_elem_of_In.
Qed.

(** X5.  [processCameras] stores in [allCameras] one camera for every preset
    of the response, in the order of the response; each carries the name and
    the municipality of its station and the preset's timestamp; and
    [this.cameras] is [filterCameras] of that list.  The configuration, the
    cycle index and the locks are left as they were. *)
Theorem processCameras_ingests (env : Env) (turf : Turf)
    (rawCameras : list RawCamera) (w : World) :
  let w' := processCameras env turf rawCameras w in
  map presetId (allCameras (ctl w'))
  = map rp_presetId (flat_map rc_presets rawCameras)
  ∧ (forall c, c ∈ allCameras (ctl w') ->
       exists station preset,
         station ∈ rawCameras ∧ preset ∈ rc_presets station
         ∧ presetId c = rp_presetId preset
         ∧ stationName c = rc_name station
         ∧ measuredTime c = rp_measuredTime preset
         ∧ municipality c
           = getMunicipalityForCamera turf (municipalityData (ctl w))
               (rc_lat station) (rc_lon station))
  ∧ cameras (ctl w')
    = filterCameras (config (ctl w)) (date_now env) (allCameras (ctl w'))
  ∧ config (ctl w') = config (ctl w)
  ∧ currentCycleIndex (ctl w') = currentCycleIndex (ctl w)
  ∧ lockedCameras (ctl w') = lockedCameras (ctl w).
Proof.
  destruct (processCameras_result env turf rawCameras w)
    as (Hall & Hcams & Hcfg & _ & Hidx & Hlock & _).
  simpl in *. rewrite Hall, Hcams, Hcfg, Hidx, Hlock.
  split; [|split; [|done]].
  - pose proof (kept_presetIds turf (date_now env) (municipalityData (ctl w))
                  (fun _ => true) rawCameras) as H.
    by rewrite !filter_all in H.
  - intros c (station & preset & Hs & Hp & ->)%processedCameras_elem.
    by exists station, preset.
Qed.

(** X6.  After [processCameras] with [dropOldCameras] on, the cameras the
    grid cycles through are less than four hours old, match the selection
    and are ordered newest first. *)
Theorem processCameras_view (env : Env) (turf : Turf)
    (rawCameras : list RawCamera) (w : World) :
  dropOldCameras (config (ctl w)) = true ->
  let w' := processCameras env turf rawCameras w in
  StronglySorted newest_first (availableCameras w')
  ∧ forall c, c ∈ availableCameras w' ->
      age_below_4h (date_now env) (measuredTime c) = true
      ∧ selected_by (config (ctl w)) c = true.
Proof.
  intros Hon. simpl.
  destruct (processCameras_result env turf rawCameras w)
    as (_ & Hcams & Hcfg & _).
  unfold availableCameras. simpl in *. rewrite Hcams, Hcfg.
  set (processed := processedCameras _ _ _ _).
  rewrite getFilteredCameras_filter.
  assert (Hfresh : forall c,
    c ∈ filterCameras (config (ctl w)) (date_now env) processed ->
    age_below_4h (date_now env) (measuredTime c) = true).
  { intros c. unfold filterCameras. rewrite Hon, sort_perm.
    intros [_ Hc]%list_elem_of_In%filter_In. by rewrite <- newer_than_age. }
  split.
  - eapply StronglySorted_sublist_of; [apply filter_sublist|].
    unfold filterCameras. rewrite Hon. apply sort_dated_sorted.
    apply Forall_forall. intros c [_ Hc]%list_elem_of_In%filter_In.
    unfold dated. destruct (measuredTime c); [by eexists|done].
  - intros c [Hin Hsel]%list_elem_of_In%filter_In. split; [|done].
    by apply Hfresh, list_elem_of_In.
Qed.

Lemma processCameras_view_witness :
  StronglySorted newest_first
    (availableCameras
       (processCameras sample_env box_turf repeated_response fresh_world)).
Proof.
  by apply (processCameras_view sample_env box_turf repeated_response
              fresh_world eq_refl).
Defined.

(** X7.  After [processCameras] no two options of the municipality selector
    have the same value, the first option included: a municipality is never
    the empty string. *)
Theorem municipality_values_distinct (env : Env) (turf : Turf)
    (rawCameras : list RawCamera) (w : World) :
  NoDup (map fst (municipalityOptions
                    (dom (processCameras env turf rawCameras w)))).
Proof.
  destruct (processCameras_result env turf rawCameras w)
    as (_ & _ & _ & _ & _ & _ & Hm & _).
  simpl in Hm. rewrite Hm. simpl. rewrite map_map. simpl. rewrite map_id.
  destruct (sorted_names_spec
              (map municipality
                 (filterCameras (config (ctl w)) (date_now env)
                    (processedCameras turf (date_now env)
                       (municipalityData (ctl w)) rawCameras))))
    as [Hnd Hin].
  apply NoDup_cons. split; [|done].
  rewrite Hin. intros (c & Hc & Hcin)%list_elem_of_fmap.
  assert (Hproc : c ∈ processedCameras turf (date_now env)
                        (municipalityData (ctl w)) rawCameras).
  { revert Hcin. unfold filterCameras. rewrite sort_perm.
    destruct (dropOldCameras _); [|done].
    intros [Hp _]%list_elem_of_In%filter_In. by apply list_elem_of_In. }
  apply processedCameras_elem in Hproc as (station & preset & _ & _ & ->).
  simpl in Hc.
  by destruct (municipality_lookup_sound turf
                 (municipalityData (ctl w)) (rc_lat station) (rc_lon station)).
Qed.

(** ** Cycling *)

Lemma cycleCameras_frame (env : Env) (w : World) :
  availableCameras (cycleCameras env w) = availableCameras w
  ∧ cameraCount (config (ctl (cycleCameras env w)))
    = cameraCount (config (ctl w)).
Proof.
  destruct (decide (Z.of_nat (length (availableCameras w)) = 0)) as [Hn|Hn].
  - unfold cycleCameras. by rewrite Hn.
  - destruct (cycleCameras_step env w Hn) as [_ Hout].
    pose proof (outside_images_available _ _ Hout) as [Hav _].
    unfold outside_images in Hout. injection Hout as _ _ _ _ _ _ _ _ Hcfg.
    rewrite Hav, Hcfg. done.
Qed.

Lemma cycleCameras_iter_frame (env : Env) (k : nat) (w : World) :
  availableCameras (Nat.iter k (cycleCameras env) w) = availableCameras w
  ∧ cameraCount (config (ctl (Nat.iter k (cycleCameras env) w)))
    = cameraCount (config (ctl w)).
Proof.
  induction k as [|k [IH1 IH2]]; simpl; [done|].
  destruct (cycleCameras_frame env (Nat.iter k (cycleCameras env) w))
    as [-> ->].
  done.
Qed.

(** X8.  Over a non-empty camera list, with an index and a camera count that
    are not negative, [k] cycle steps (one or more) leave the index at
    [(index + k * cameraCount) mod length]; the camera list and the camera
    count do not change.  So when the camera count is a multiple of the
    number of cameras, an index in range never moves and cycling shows the
    same cameras again. *)
Theorem cycleCameras_iterated (env : Env) (w : World) (k : nat) :
  let n := Z.of_nat (length (availableCameras w)) in
  let i0 := currentCycleIndex (ctl w) in
  let count := cameraCount (config (ctl w)) in
  let wk := Nat.iter (S k) (cycleCameras env) w in
  n ≠ 0 -> 0 <= i0 -> 0 <= count ->
  currentCycleIndex (ctl wk) = (i0 + Z.of_nat (S k) * count) `mod` n
  ∧ availableCameras wk = availableCameras w
  ∧ cameraCount (config (ctl wk)) = count
  ∧ (count `mod` n = 0 -> i0 < n -> currentCycleIndex (ctl wk) = i0).
Proof.
  intros n i0 count wk Hn Hi Hc. subst wk.
  assert (Hidx : currentCycleIndex (ctl (Nat.iter (S k) (cycleCameras env) w))
                 = (i0 + Z.of_nat (S k) * count) `mod` n).
  { induction k as [|k IH].
    - simpl. destruct (cycleCameras_step env w Hn) as [-> _].
      unfold JS.rem. rewrite Z.rem_mod_nonneg by lia.
      subst n i0 count. f_equal. lia.
    - change (Nat.iter (S (S k)) (cycleCameras env) w)
        with (cycleCameras env (Nat.iter (S k) (cycleCameras env) w)).
      destruct (cycleCameras_iter_frame env (S k) w) as [Hav Hcount].
      destruct (cycleCameras_step env (Nat.iter (S k) (cycleCameras env) w))
        as [-> _]; [by rewrite Hav|].
      rewrite Hav, Hcount, IH. fold n count.
      unfold JS.rem. rewrite Z.rem_mod_nonneg.
      + rewrite Zplus_mod_idemp_l. f_equal. lia.
      + pose proof (Z.mod_pos_bound (i0 + Z.of_nat (S k) * count) n). lia.
      + lia. }
  destruct (cycleCameras_iter_frame env (S k) w) as [Hav Hcount].
  split; [done|]. split; [done|]. split; [done|].
  intros Hmul Hlt. rewrite Hidx.
  rewrite Z.add_mod, Z.mul_mod, Hmul by lia.
  rewrite Z.mul_0_r, Z.mod_0_l, Z.add_0_r, Z.mod_mod by lia.
  apply Z.mod_small. lia.
Qed.

Lemma cycleCameras_iterated_witness :
  currentCycleIndex (ctl (Nat.iter 3 (cycleCameras sample_env) sample_world3))
  = 1
  ∧ currentCycleIndex (ctl (Nat.iter 2 (cycleCameras sample_env) sample_world))
    = 0.
Proof.
  split.
  - destruct (cycleCameras_iterated sample_env sample_world3 2)
      as [Hidx _]; [vm_compute; discriminate..|].
    rewrite Hidx. reflexivity.
  - destruct (cycleCameras_iterated sample_env sample_world 1)
      as (_ & _ & _ & Hfix); [vm_compute; discriminate..|].
    apply Hfix; reflexivity.
Defined.

(** ** Locks *)

(** X9.  [toggleCameraLock] changes nothing but the lock set, and that only
    for a slot that holds a working camera container: the world after the
    call is the world before with another lock set; toggling twice restores
    the world; a slot that is missing, a placeholder or in error is left
    as it was; and on a working slot the call flips the lock of that slot
    and of no other. *)
Theorem toggleCameraLock_round_trip (i : Z) (w : World) :
  toggleCameraLock i w
  = with_ctl (set_lockedCameras (lockedCameras (ctl (toggleCameraLock i w)))) w
  ∧ toggleCameraLock i (toggleCameraLock i w) = w
  ∧ (¬ loadable (cameraGrid (dom w) !! i) -> toggleCameraLock i w = w)
  ∧ (loadable (cameraGrid (dom w) !! i) ->
     (i ∈ lockedCameras (ctl (toggleCameraLock i w))
      <-> i ∉ lockedCameras (ctl w))
     ∧ forall j, j ≠ i ->
         (j ∈ lockedCameras (ctl (toggleCameraLock i w))
          <-> j ∈ lockedCameras (ctl w))).
Proof.
  assert (Hback : forall L : gset Z,
    (i ∈ L -> L ∖ {[i]} ∪ {[i]} = L) ∧ (i ∉ L -> (L ∪ {[i]}) ∖ {[i]} = L)).
  { intros L. split; intros Hi; apply set_eq; intros x;
      rewrite elem_of_union, elem_of_difference, elem_of_singleton
      || rewrite elem_of_difference, elem_of_union, elem_of_singleton;
      destruct (decide (x = i)) as [->|]; tauto. }
  assert (Hin1 : forall L : gset Z, i ∉ L ∖ {[i]}).
  { intros L. rewrite elem_of_difference, elem_of_singleton. tauto. }
  assert (Hin2 : forall L : gset Z, i ∈ L ∪ {[i]}).
  { intros L. rewrite elem_of_union, elem_of_singleton. tauto. }
  assert (Hother : forall (L : gset Z) j, j ≠ i ->
    (j ∈ L ∖ {[i]} <-> j ∈ L) ∧ (j ∈ L ∪ {[i]} <-> j ∈ L)).
  { intros L j Hj.
    rewrite elem_of_difference, elem_of_union, elem_of_singleton. tauto. }
  assert (Hcont : forall w0, loadable (cameraGrid (dom w0) !! i) ->
    toggleCameraLock i w0
    = if bool_decide (i ∈ lockedCameras (ctl w0))
      then with_ctl (fun c => set_lockedCameras (lockedCameras c ∖ {[i]}) c) w0
      else with_ctl (fun c => set_lockedCameras (lockedCameras c ∪ {[i]}) c)
                    w0).
  { intros w0. unfold toggleCameraLock. by intros [->|[c ->]]. }
  assert (Hnot : ¬ loadable (cameraGrid (dom w) !! i) ->
    toggleCameraLock i w = w).
  { unfold toggleCameraLock, loadable.
    destruct (cameraGrid (dom w) !! i) as [[| |c|]|]; try done.
    - intros []. by left.
    - intros []. right. by eexists. }
  assert (Hdec : loadable (cameraGrid (dom w) !! i)
                 ∨ ¬ loadable (cameraGrid (dom w) !! i)).
  { unfold loadable. destruct (cameraGrid (dom w) !! i) as [[| |c|]|].
    - right. by intros [?|[? ?]].
    - left. by left.
    - left. right. by eexists.
    - right. by intros [?|[? ?]].
    - right. by intros [?|[? ?]]. }
  destruct Hdec as [Hl|Hn].
  2:{ split; [|split; [by rewrite !(Hnot Hn)|by split]].
      rewrite (Hnot Hn). destruct w as [c d b]. by destruct c. }
  split; [|split; [|split; [done|]]].
  - rewrite (Hcont w Hl).
    by destruct (bool_decide (i ∈ lockedCameras (ctl w))).
  - rewrite (Hcont w Hl).
    destruct (decide (i ∈ lockedCameras (ctl w))) as [Hin|Hout].
    + rewrite (bool_decide_true _ Hin). rewrite Hcont by exact Hl.
      simpl. rewrite (bool_decide_false _ (Hin1 _)).
      destruct w as [c d b]. destruct c. unfold with_ctl. simpl in *.
      by rewrite (proj1 (Hback _) Hin).
    + rewrite (bool_decide_false _ Hout). rewrite Hcont by exact Hl.
      simpl. rewrite (bool_decide_true _ (Hin2 _)).
      destruct w as [c d b]. destruct c. unfold with_ctl. simpl in *.
      by rewrite (proj2 (Hback _) Hout).
  - intros _. rewrite (Hcont w Hl).
    destruct (decide (i ∈ lockedCameras (ctl w))) as [Hin|Hout].
    + rewrite (bool_decide_true _ Hin). simpl. split.
      * split; [by intros ?%Hin1|done].
      * intros j Hj. apply (Hother _ j Hj).
    + rewrite (bool_decide_false _ Hout). simpl. split.
      * split; [done|intros _; apply Hin2].
      * intros j Hj. apply (Hother _ j Hj).
Qed.

(** ** The image loaders *)

Lemma loadSingleCamera_parked env i cell entry j camera w :
  inert cell -> parked i cell entry w ->
  parked i cell entry (loadSingleCamera env j camera w).
Proof.
  intros Hinert [Hg Hc]. unfold loadSingleCamera, parked.
  destruct (decide (i = j)) as [<-|Hne].
  - rewrite Hg. by destruct Hinert as [-> | ->].
  - destruct (cameraGrid (dom w) !! j) as [[| |c|]|]; try done;
      destruct (image_loads env _ _); simpl;
      rewrite ?lookup_insert_ne by done; done.
Qed.

(** X10.  A placeholder, and a container whose image failed to load, is
    passed over by the loaders: [loadCameraImages], [updateCameraImages]
    and [cycleCameras] leave its cell and its entry of [currentImages] as
    they are, so a failed slot is not tried again before the grid is
    rendered anew. *)
Theorem inert_slot_passed_over (env : Env) (w : World) (i : Z) (cell : Slot) :
  cameraGrid (dom w) !! i = Some cell -> inert cell ->
  forall w',
    w' = loadCameraImages env w ∨ w' = updateCameraImages env w
    ∨ w' = cycleCameras env w ->
    cameraGrid (dom w') !! i = Some cell
    ∧ currentImages (ctl w') !! i = currentImages (ctl w) !! i.
Proof.
  intros Hg Hinert.
  assert (Hp : parked i cell (currentImages (ctl w) !! i) w) by done.
  assert (Hload : forall w0,
    parked i cell (currentImages (ctl w) !! i) w0 ->
    parked i cell (currentImages (ctl w) !! i) (loadCameraImages env w0)).
  { intros w0. unfold loadCameraImages.
    apply (foldl_invariant (parked i cell (currentImages (ctl w) !! i))).
    intros s j Hs. unfold loadCameraImages_slot.
    destruct (_ && _); [done|]. destruct (JS.index _ _); [|done].
    by apply loadSingleCamera_parked. }
  assert (Hupd :
    parked i cell (currentImages (ctl w) !! i) (updateCameraImages env w)).
  { unfold updateCameraImages.
    apply (foldl_invariant (parked i cell (currentImages (ctl w) !! i)));
      [|exact Hp].
    intros s j Hs. unfold updateCameraImages_slot.
    destruct (cameraGrid (dom s) !! j) as [[| |c|]|]; try done;
      (destruct (currentImages (ctl s) !! j); [|done]);
      (destruct (negb _); [|done]);
      (destruct (JS.find _ _); [|done]);
      by apply loadSingleCamera_parked. }
  intros w' [-> | [-> | ->]].
  - by apply Hload.
  - exact Hupd.
  - unfold cycleCameras. destruct (_ =? 0); [done|]. by apply Hload.
Qed.

Lemma inert_slot_passed_over_witness :
  cameraGrid (dom (cycleCameras sample_env failed_world)) !! 1 = Some Failed.
Proof.
  assert (Hcell : cameraGrid (dom failed_world) !! 1 = Some Failed).
  { vm_compute. reflexivity. }
  apply (inert_slot_passed_over sample_env failed_world 1 Failed Hcell);
    [by right|auto].
Defined.

Lemma foldl_invariant_on {S X} (Q : S -> Prop) (f : S -> X -> S)
    (l : list X) :
  (forall s x, x ∈ l -> Q s -> Q (f s x)) -> forall s, Q s -> Q (foldl f s l).
Proof.
  induction l as [|x l IH]; intros Hf s Hs; simpl; [done|].
  apply IH.
  - intros s0 y Hy. apply Hf. by apply elem_of_cons; right.
  - apply Hf; [by apply elem_of_cons; left|done].
Qed.

Lemma foldl_establishes {S X} `{EqDecision X} (Q R : S -> Prop)
    (f : S -> X -> S) (i : X) (l : list X) :
  NoDup l -> i ∈ l ->
  (forall s j, j ≠ i -> Q s -> Q (f s j)) ->
  (forall s j, j ≠ i -> R s -> R (f s j)) ->
  (forall s, Q s -> R (f s i)) ->
  forall s, Q s -> R (foldl f s l).
Proof.
  intros Hnd Hin HQ HR HQR.
  induction l as [|x l IH]; intros s Hs; [by apply elem_of_nil in Hin|].
  apply NoDup_cons in Hnd as [Hx Hnd]. simpl.
  destruct (decide (x = i)) as [->|Hne].
  - apply foldl_invariant_on; [|by apply HQR].
    intros s0 j Hj. apply HR. by intros ->.
  - apply IH; [done| |by apply HQ].
    apply elem_of_cons in Hin as [->|]; done.
Qed.

(** X11.  When every image loads, [loadCameraImages] fills slot [i] of the
    window with the camera at [(currentCycleIndex + i) mod length] of the
    filtered list, in [currentImages] and on the page, for every slot below
    [min cameraCount length] that has a working container and is not a
    locked slot holding an image. *)
Theorem loadCameraImages_shows_window (env : Env) (w : World) (i : Z) :
  let available := availableCameras w in
  let n := Z.of_nat (length available) in
  let w' := loadCameraImages env w in
  images_load env ->
  0 <= currentCycleIndex (ctl w) ->
  0 <= i < Z.min (cameraCount (config (ctl w))) n ->
  loadable (cameraGrid (dom w) !! i) ->
  ¬ (i ∈ lockedCameras (ctl w) ∧ is_Some (currentImages (ctl w) !! i)) ->
  exists camera,
    available !! Z.to_nat ((currentCycleIndex (ctl w) + i) `mod` n)
    = Some camera
    ∧ currentImages (ctl w') !! i = Some camera
    ∧ cameraGrid (dom w') !! i = Some (Showing camera).
Proof.
  intros available n w' Hnet Hidx Hi Hcell Hfree.
  assert (Hn : 0 < n) by lia.
  pose proof (Z.mod_pos_bound (currentCycleIndex (ctl w) + i) n Hn) as Hmod.
  destruct (lookup_lt_is_Some_2 available
              (Z.to_nat ((currentCycleIndex (ctl w) + i) `mod` n)))
    as [camera Hcam]; [subst n; lia|].
  exists camera. split; [done|].
  set (Q := fun s : World =>
    loadable (cameraGrid (dom s) !! i)
    ∧ ¬ (i ∈ lockedCameras (ctl s) ∧ is_Some (currentImages (ctl s) !! i))
    ∧ currentCycleIndex (ctl s) = currentCycleIndex (ctl w)).
  set (R := fun s : World =>
    currentImages (ctl s) !! i = Some camera
    ∧ cameraGrid (dom s) !! i = Some (Showing camera)).
  assert (Hother : forall (P : World -> Prop) s j c,
    j ≠ i ->
    (forall s0, cameraGrid (dom s0) !! i = cameraGrid (dom s) !! i ->
                currentImages (ctl s0) !! i = currentImages (ctl s) !! i ->
                lockedCameras (ctl s0) = lockedCameras (ctl s) ->
                currentCycleIndex (ctl s0) = currentCycleIndex (ctl s) ->
                P s0) ->
    P (loadSingleCamera env j c s)).
  { intros P s j c Hj HP. unfold loadSingleCamera.
    destruct (cameraGrid (dom s) !! j) as [[| |c0|]|]; try (by apply HP);
      destruct (image_loads env _ _); apply HP; simpl;
      rewrite ?lookup_insert_ne by done; done. }
  subst w'. unfold loadCameraImages.
  apply (foldl_establishes Q R _ i).
  - apply NoDup_seqZ.
  - apply elem_of_seqZ. fold available n. lia.
  - intros s j Hj (HQ1 & HQ2 & HQ3). unfold loadCameraImages_slot.
    destruct (_ && _); [done|]. destruct (JS.index _ _); [|done].
    apply Hother; [done|]. intros s0 Hg Hc Hl Hx. unfold Q.
    by rewrite Hg, Hc, Hl, Hx.
  - intros s j Hj [HR1 HR2]. unfold loadCameraImages_slot.
    destruct (_ && _); [done|]. destruct (JS.index _ _); [|done].
    apply Hother; [done|]. intros s0 Hg Hc _ _. unfold R.
    by rewrite Hg, Hc.
  - intros s (HQ1 & HQ2 & HQ3). unfold loadCameraImages_slot.
    assert (bool_decide (i ∈ lockedCameras (ctl s))
            && bool_decide (is_Some (currentImages (ctl s) !! i)) = false)
      as ->.
    { apply andb_false_iff.
      destruct (decide (i ∈ lockedCameras (ctl s))) as [Hl|Hl];
        [|left; by apply bool_decide_false].
      right. apply bool_decide_false. tauto. }
    rewrite HQ3. fold available n. unfold JS.rem, JS.index.
    rewrite Z.rem_mod_nonneg by lia.
    destruct (Z.ltb_spec ((currentCycleIndex (ctl w) + i) `mod` n) 0); [lia|].
    rewrite Hcam. unfold loadSingleCamera, R.
    destruct HQ1 as [-> | [c0 ->]]; rewrite Hnet; simpl;
      by rewrite !lookup_insert_eq.
  - done.
Qed.

Example loadCameraImages_window_sample :
  map (fun p => (fst p, presetId (snd p)))
      (map_to_list
         (currentImages
            (ctl (loadCameraImages sample_env
                    (with_ctl (set_currentCycleIndex 3) sample_world3)))))
  = [(3, "P4"); (2, "P2"); (1, "P1"); (0, "P4")].
Proof. vm_compute. reflexivity. Qed.

Lemma loadCameraImages_shows_window_witness :
  exists camera,
    availableCameras sample_world3 !! Z.to_nat ((0 + 2) `mod` 4) = Some camera
    ∧ currentImages (ctl (loadCameraImages sample_env sample_world3)) !! 2
      = Some camera.
Proof.
  destruct (loadCameraImages_shows_window sample_env sample_world3 2)
    as (camera & H1 & H2 & _).
  - intros n url. reflexivity.
  - vm_compute. discriminate.
  - vm_compute. split; [discriminate|reflexivity].
  - right. eexists. vm_compute. reflexivity.
  - intros [Hl _]. revert Hl. apply (bool_decide_unpack _). vm_compute. exact I.
  - exists camera. split; [exact H1|exact H2].
Defined.

Lemma image_requests_refl pool w : image_requests_since pool 0 w w.
Proof. exists []. by rewrite app_nil_r. Qed.

Lemma image_requests_trans pool k1 k2 w1 w2 w3 :
  image_requests_since pool k1 w1 w2 -> image_requests_since pool k2 w2 w3 ->
  image_requests_since pool (k1 + k2) w1 w3.
Proof.
  intros (n1 & H1 & L1 & F1) (n2 & H2 & L2 & F2). exists (n1 ++ n2).
  rewrite H2, H1, <- app_assoc, length_app. split; [done|].
  split; [lia|]. by apply Forall_app.
Qed.

Lemma image_requests_weaken pool k1 k2 w1 w2 :
  (k1 <= k2)%nat -> image_requests_since pool k1 w1 w2 ->
  image_requests_since pool k2 w1 w2.
Proof. intros Hk (n & H & L & F). exists n. split; [done|]. split; [lia|done]. Qed.

Lemma loadSingleCamera_requests env pool j camera w :
  camera ∈ pool ->
  image_requests_since pool 1 w (loadSingleCamera env j camera w).
Proof.
  intros Hin. unfold loadSingleCamera.
  assert (Hone : forall w0,
    requests (browser w0)
    = requests (browser w) ++ [ImageLoad (imageUrl camera)] ->
    image_requests_since pool 1 w w0).
  { intros w0 H. exists [ImageLoad (imageUrl camera)]. split; [done|].
    split; [done|]. repeat constructor. by exists camera. }
  destruct (cameraGrid (dom w) !! j) as [[| |c|]|];
    try (apply (image_requests_weaken _ 0); [lia|apply image_requests_refl]);
    destruct (image_loads env _ _); by apply Hone.
Qed.

Lemma foldl_requests {X} (pool : list Camera) (I : World -> Prop)
    (f : World -> X -> World) :
  (forall s x, I s -> I (f s x) ∧ image_requests_since pool 1 s (f s x)) ->
  forall l s, I s ->
    I (foldl f s l) ∧ image_requests_since pool (length l) s (foldl f s l).
Proof.
  intros Hf. induction l as [|x l IH]; intros s Hs; simpl.
  - split; [done|apply image_requests_refl].
  - destruct (Hf s x Hs) as [Hi H1]. destruct (IH _ Hi) as [Hi' Hl].
    split; [done|]. by apply (image_requests_trans pool 1 (length l) s (f s x)).
Qed.

Lemma loadCameraImages_requests env w :
  image_requests_since (availableCameras w)
    (Z.to_nat (Z.min (cameraCount (config (ctl w)))
                     (Z.of_nat (length (availableCameras w)))))
    w (loadCameraImages env w).
Proof.
  unfold loadCameraImages.
  destruct (foldl_requests (availableCameras w) (fun _ => True)
              (loadCameraImages_slot env (availableCameras w)))
    with (l := seqZ 0 (Z.min (cameraCount (config (ctl w)))
                             (Z.of_nat (length (availableCameras w)))))
         (s := w) as [_ H]; [|done|by rewrite length_seqZ in H].
  intros s x _. split; [done|]. unfold loadCameraImages_slot.
  destruct (_ && _);
    [apply (image_requests_weaken _ 0); [lia|apply image_requests_refl]|].
  destruct (JS.index _ _) as [camera|] eqn:E;
    [|apply (image_requests_weaken _ 0); [lia|apply image_requests_refl]].
  apply loadSingleCamera_requests. unfold JS.index in E.
  destruct (_ <? 0); [done|]. by eapply list_elem_of_lookup_2.
Qed.

(** X12.  One run of a loader sends image requests only, and at most one per
    slot: [loadCameraImages], [renderCameras] and [cycleCameras] send at
    most [min cameraCount length] of them, each for a camera of the filtered
    list, and [updateCameraImages] at most [cameraCount], each for a stored
    camera. *)
Theorem image_request_budget (env : Env) (w : World) :
  let count := cameraCount (config (ctl w)) in
  let n := Z.of_nat (length (availableCameras w)) in
  image_requests_since (availableCameras w) (Z.to_nat (Z.min count n))
                       w (loadCameraImages env w)
  ∧ image_requests_since (availableCameras w) (Z.to_nat (Z.min count n))
                         w (renderCameras env w)
  ∧ image_requests_since (availableCameras w) (Z.to_nat (Z.min count n))
                         w (cycleCameras env w)
  ∧ image_requests_since (cameras (ctl w)) (Z.to_nat count)
                         w (updateCameraImages env w).
Proof.
  simpl. split; [apply loadCameraImages_requests|]. split; [|split].
  - unfold renderCameras. destruct (_ =? 0).
    + exists []. rewrite app_nil_r. split; [done|].
      split; [simpl; lia|constructor].
    + match goal with
      | |- context [loadCameraImages env ?w0] =>
          exact (loadCameraImages_requests env w0)
      end.
  - unfold cycleCameras. destruct (_ =? 0).
    + apply (image_requests_weaken _ 0); [lia|apply image_requests_refl].
    + match goal with
      | |- context [loadCameraImages env ?w0] =>
          exact (loadCameraImages_requests env w0)
      end.
  - unfold updateCameraImages.
    destruct (foldl_requests (cameras (ctl w))
                (fun s => cameras (ctl s) = cameras (ctl w))
                (updateCameraImages_slot env))
      with (l := seqZ 0 (cameraCount (config (ctl w)))) (s := w)
      as [_ H]; [|done|by rewrite length_seqZ in H].
    intros s x Hs. unfold updateCameraImages_slot.
    assert (Hskip : (cameras (ctl s) = cameras (ctl w))
                    ∧ image_requests_since (cameras (ctl w)) 1 s s).
    { split; [done|].
      apply (image_requests_weaken _ 0); [lia|apply image_requests_refl]. }
    destruct (cameraGrid (dom s) !! x) as [[| |c|]|]; try done;
      (destruct (currentImages (ctl s) !! x); [|done]);
      (destruct (negb _); [|done]);
      (destruct (JS.find _ _) as [updated|] eqn:E; [|done]);
      (split;
       [ pose proof (loadSingleCamera_outside env x updated s) as Hout;
         unfold outside_images in Hout; injection Hout as -> ; done
       | apply loadSingleCamera_requests; rewrite <- Hs;
         apply list_elem_of_In; by apply find_some in E as [? _] ]).
Qed.

Example image_request_budget_sample :
  length (requests (browser (cycleCameras sample_env sample_world3)))
  = (length (requests (browser sample_world3)) + 3)%nat.
Proof. vm_compute. reflexivity. Qed.

(** X13.  [updateCameraImages] keeps the cameras on display: after it every
    slot holds a camera with the [presetId] it held before (a slot without an
    image stays without), and a slot whose entry changed holds a stored
    camera. *)
Theorem updateCameraImages_same_cameras (env : Env) (w : World) (i : Z) :
  let w' := updateCameraImages env w in
  presetId <$> currentImages (ctl w') !! i
  = presetId <$> currentImages (ctl w) !! i
  ∧ forall c', currentImages (ctl w') !! i = Some c' ->
      currentImages (ctl w) !! i = Some c' ∨ c' ∈ cameras (ctl w).
Proof.
  simpl.
  set (Q := fun s : World =>
    cameras (ctl s) = cameras (ctl w)
    ∧ presetId <$> currentImages (ctl s) !! i
      = presetId <$> currentImages (ctl w) !! i
    ∧ forall c', currentImages (ctl s) !! i = Some c' ->
        currentImages (ctl w) !! i = Some c' ∨ c' ∈ cameras (ctl w)).
  assert (HQ : Q (updateCameraImages env w)); [|by destruct HQ as (_ & ? & ?)].
  unfold updateCameraImages. apply (foldl_invariant Q); [|by split; [|split; auto]].
  intros s j (Hcams & Hids & Hfrom). unfold updateCameraImages_slot.
  destruct (cameraGrid (dom s) !! j) as [cell|] eqn:Hcell; [|done].
  destruct (currentImages (ctl s) !! j) as [currentCamera|] eqn:Hcur;
    [|by destruct cell].
  destruct (negb _); [|by destruct cell].
  destruct (JS.find _ _) as [updated|] eqn:E; [|by destruct cell].
  apply find_some in E as [Hin Heq]. apply String.eqb_eq in Heq.
  apply list_elem_of_In in Hin. rewrite Hcams in Hin.
  assert (Hstep : forall s0,
    cameras (ctl s0) = cameras (ctl s) ->
    currentImages (ctl s0) = currentImages (ctl s)
    ∨ currentImages (ctl s0) = <[j := updated]> (currentImages (ctl s)) ->
    Q s0).
  { intros s0 Hc [Hsame|Hset]; unfold Q; rewrite Hc.
    - by rewrite Hsame.
    - rewrite Hset. destruct (decide (j = i)) as [->|Hne].
      + rewrite lookup_insert_eq. split; [done|]. split.
        * rewrite <- Hids, Hcur. simpl. by rewrite Heq.
        * intros c' [= <-]. by right.
      + by rewrite lookup_insert_ne. }
  unfold loadSingleCamera. rewrite Hcell.
  destruct cell as [| |c|]; try (by apply Hstep; [|left]);
    destruct (image_loads env _ _); apply Hstep; simpl; auto.
Qed.

Example updateCameraImages_sample :
  map (fun p => (fst p, presetId (snd p)))
      (map_to_list (currentImages (ctl (updateCameraImages sample_env
                                          sample_world))))
  = [(3, "P4"); (2, "P3"); (1, "P2"); (0, "P1")].
Proof. vm_compute. reflexivity. Qed.

(** ** Rendering the grid *)

Lemma lookup_cells (cell : Slot) (keys : list Z) (i : Z) :
  (list_to_map (map (fun k => (k, cell)) keys) : gmap Z Slot) !! i
  = if decide (i ∈ keys) then Some cell else None.
Proof.
  induction keys as [|k keys IH].
  - simpl. rewrite lookup_empty.
    destruct (decide (i ∈ [])) as [H|_]; [by apply elem_of_nil in H|done].
  - change (list_to_map (map (fun k0 => (k0, cell)) (k :: keys)) : gmap Z Slot)
      with (<[k := cell]>
              (list_to_map (map (fun k0 => (k0, cell)) keys) : gmap Z Slot)).
    destruct (decide (k = i)) as [->|Hne].
    + rewrite lookup_insert_eq.
      destruct (decide (i ∈ i :: keys)) as [_|H]; [done|].
      exfalso. apply H, elem_of_cons. by left.
    + rewrite lookup_insert_ne by done. rewrite IH.
      destruct (decide (i ∈ keys)) as [Hin|Hout];
        destruct (decide (i ∈ k :: keys)) as [Hin'|Hout']; try done.
      * exfalso. apply Hout', elem_of_cons. by right.
      * apply elem_of_cons in Hin' as [->|?]; done.
Qed.

Lemma loadSingleCamera_kind env i j camera w :
  cell_kind (cameraGrid (dom (loadSingleCamera env j camera w)) !! i)
  = cell_kind (cameraGrid (dom w) !! i).
Proof.
  unfold loadSingleCamera.
  destruct (cameraGrid (dom w) !! j) as [[| |c|]|] eqn:Hj; try done;
    destruct (image_loads env _ _); simpl;
    (destruct (decide (j = i)) as [->|Hne];
     [rewrite lookup_insert_eq, Hj|rewrite lookup_insert_ne by done]; done).
Qed.

Lemma loadCameraImages_kind env i w :
  cell_kind (cameraGrid (dom (loadCameraImages env w)) !! i)
  = cell_kind (cameraGrid (dom w) !! i).
Proof.
  unfold loadCameraImages.
  apply (foldl_preserves (fun s => cell_kind (cameraGrid (dom s) !! i))).
  intros s j. unfold loadCameraImages_slot.
  destruct (_ && _); [done|]. destruct (JS.index _ _); [|done].
  apply loadSingleCamera_kind.
Qed.

(** X14.  [renderCameras] lays the grid out anew.  Without cameras to show
    it empties the grid and touches nothing else.  Otherwise, for a camera
    count that is not negative, the cells [0 .. a-1] are camera containers,
    where [a] is [min cameraCount length], the cells from [a] up to the
    optimal grid size are placeholders, and there is no other cell. *)
Theorem renderCameras_layout (env : Env) (w : World) :
  let n := Z.of_nat (length (availableCameras w)) in
  let a := Z.min (cameraCount (config (ctl w))) n in
  let w' := renderCameras env w in
  (n = 0 ->
   cameraGrid (dom w') = ∅ ∧ ctl w' = ctl w ∧ browser w' = browser w)
  ∧ (n ≠ 0 -> 0 <= cameraCount (config (ctl w)) ->
     forall i,
       cell_kind (cameraGrid (dom w') !! i)
       = if decide (0 <= i < a) then ContainerCell
         else if decide (a <= i < getOptimalGridSize a) then PlaceholderCell
         else NoCell).
Proof.
  simpl. split.
  - intros Hn. unfold renderCameras. by rewrite Hn.
  - intros Hn Hcount i. unfold renderCameras.
    destruct (Z.eqb_spec (Z.of_nat (length (availableCameras w))) 0) as [|_];
      [done|].
    rewrite loadCameraImages_kind. simpl.
    rewrite list_to_map_app, lookup_union, !lookup_cells.
    set (a := Z.min _ _).
    destruct (decide (i ∈ seqZ 0 a)) as [Hin|Hout];
      [|destruct (decide (i ∈ seqZ a (getOptimalGridSize a - a)))
          as [Hin'|Hout']];
      rewrite ?elem_of_seqZ in *; simpl;
      repeat case_decide; try done; try lia.
Qed.

Example renderCameras_layout_sample :
  map (fun i => cell_kind (cameraGrid (dom sample_world3) !! i))
      [-1; 0; 1; 2; 3; 4]
  = [NoCell; ContainerCell; ContainerCell; ContainerCell; ContainerCell;
     NoCell]
  ∧ map (fun i =>
           cell_kind
             (cameraGrid (dom (renderCameras sample_env sample_world3)) !! i))
        [-1; 0; 1; 2; 3; 4]
    = [NoCell; ContainerCell; ContainerCell; ContainerCell; PlaceholderCell;
       NoCell].
Proof. vm_compute. split; reflexivity. Qed.

Lemma renderCameras_layout_witness :
  cell_kind (cameraGrid (dom (renderCameras sample_env sample_world3)) !! 3)
  = PlaceholderCell.
Proof.
  destruct (renderCameras_layout sample_env sample_world3) as [_ H].
  rewrite H; [reflexivity|vm_compute; discriminate..].
Defined.

(** ** Mobile restrictions *)

Lemma setupMobileRestrictions_count env w :
  cameraCount (config (ctl (setupMobileRestrictions env w)))
  = if isMobile (ctl w) then Z.min (cameraCount (config (ctl w))) 8
    else cameraCount (config (ctl w)).
Proof.
  unfold setupMobileRestrictions. destruct (isMobile (ctl w)); simpl; [|done].
  destruct (Z.ltb_spec 8 (cameraCount (config (ctl w)))); [|lia].
  match goal with
  | |- context [renderCameras env ?w0] =>
      pose proof (renderCameras_outside env w0) as Hout
  end.
  unfold outside_images in Hout. injection Hout as _ _ _ _ _ _ _ _ -> _.
  simpl. lia.
Qed.

(** X15.  [setupMobileRestrictions] does nothing off a mobile device; on one
    it caps the camera count at 8.  So a resize that turns the page into a
    mobile one leaves a camera count of at most 8. *)
Theorem setupMobileRestrictions_caps (env : Env) (w : World) :
  (isMobile (ctl w) = false -> setupMobileRestrictions env w = w)
  ∧ (isMobile (ctl w) = true ->
     cameraCount (config (ctl (setupMobileRestrictions env w)))
     = Z.min (cameraCount (config (ctl w))) 8)
  ∧ (started (ctl w) = true -> isMobile (ctl w) = false ->
     detect_mobile env = true ->
     cameraCount (config (ctl (step env Resize w)))
     = Z.min (cameraCount (config (ctl w))) 8).
Proof.
  split; [|split].
  - intros H. unfold setupMobileRestrictions. by rewrite H.
  - intros H. by rewrite setupMobileRestrictions_count, H.
  - intros Hs Hm Hd. unfold step. rewrite Hs. unfold listener. simpl.
    rewrite Hm, Hd. simpl.
    match goal with
    | |- context [renderCameras env ?w0] =>
        pose proof (renderCameras_outside env w0) as Hout
    end.
    unfold outside_images in Hout. injection Hout as _ _ _ _ _ _ _ _ -> _.
    rewrite setupMobileRestrictions_count. simpl. by rewrite ?Hd.
Qed.

Lemma setupMobileRestrictions_caps_witness :
  cameraCount (config (ctl (step mobile_env Resize twelve_world))) = 8.
Proof.
  destruct (setupMobileRestrictions_caps mobile_env twelve_world)
    as (_ & _ & H).
  rewrite H; reflexivity.
Defined.

(** ** Initialization and reload *)

Lemma sent_send r w : sent (send r w) = S (sent w).
Proof. unfold sent, send. simpl. rewrite length_app. simpl. lia. Qed.

(** X16.  A page load installs the listeners and timers exactly when the
    geometry library is there and both fetches are answered, the camera
    request being the one sent right after the municipality request.  It
    then holds the municipality data, the time of the update and the
    filtered cameras of the response; a page load that fails stores no
    camera. *)
Theorem page_load_outcome (env : Env) (w : World) :
  let w' := step env PageLoad w in
  (started (ctl w') = true <->
   is_Some (turf_global env) ∧ is_Some (geojson_response env (sent w))
   ∧ is_Some (cameras_response env (S (sent w))))
  ∧ (forall turf data rawCameras,
       turf_global env = Some turf ->
       geojson_response env (sent w) = Some data ->
       cameras_response env (S (sent w)) = Some rawCameras ->
       municipalityData (ctl w') = Some data
       ∧ lastFullUpdate (ctl w') = Some (date_now env)
       ∧ cameras (ctl w')
         = filterCameras initial_config (date_now env)
             (processedCameras turf (date_now env) (Some data) rawCameras))
  ∧ (started (ctl w') = false -> cameras (ctl w') = []).
Proof.
  simpl. unfold init.
  set (w0 := with_ctl (fun _ => new_controller (detect_mobile env)) w).
  assert (Hsent : sent w0 = sent w) by done.
  destruct (turf_global env) as [turf|]; simpl.
  2:{ split; [|split]; try done. split; [done|]. by intros [[? ?] _]. }
  unfold eff_catch, eff_bind, loadMunicipalityData. rewrite Hsent.
  destruct (geojson_response env (sent w)) as [data|]; simpl.
  2:{ split; [|split]; try done. split; [done|]. by intros (_ & [? ?] & _). }
  unfold loadCameras.
  assert (Hsent2 :
    sent (with_ctl (set_municipalityData (Some data))
                   (send (Fetch "GET" geojson_url) w0)) = S (sent w)).
  { exact (sent_send (Fetch "GET" geojson_url) w0). }
  rewrite Hsent2.
  destruct (cameras_response env (S (sent w))) as [rawCameras|]; simpl.
  2:{ split; [|split]; try done. split; [done|]. by intros (_ & _ & [? ?]). }
  unfold eff_do. simpl.
  match goal with
  | |- context [setupMobileRestrictions env ?w1] =>
      assert (Hmob : setupMobileRestrictions env w1 = w1); [|rewrite Hmob]
  end.
  { unfold setupMobileRestrictions. destruct (negb _); [done|].
    match goal with
    | |- context [processCameras env turf rawCameras ?w2] =>
        destruct (processCameras_result env turf rawCameras w2)
          as (_ & _ & Hcfg & _)
    end.
    simpl in *. by rewrite Hcfg. }
  simpl.
  match goal with
  | |- context [processCameras env turf rawCameras ?w2] =>
      destruct (processCameras_result env turf rawCameras w2)
        as (_ & Hcams & _ & Hdata & _)
  end.
  simpl in *. rewrite Hcams, Hdata.
  split; [|split].
  - split; [intros _|done]. repeat split; by eexists.
  - by intros turf' data' raw' [= <-] [= <-] [= <-].
  - done.
Qed.

Example page_load_offline_sample :
  let w := step offline_env PageLoad fresh_world in
  started (ctl w) = false ∧ cameras (ctl w) = []
  ∧ municipalityData (ctl w) = Some sample_municipalities
  ∧ requests (browser w) = [Fetch "GET" geojson_url; Fetch "POST" api_url].
Proof. vm_compute. repeat split; reflexivity. Qed.

Lemma page_load_outcome_witness :
  started (ctl (step sample_env PageLoad fresh_world)) = true
  ∧ cameras (ctl (step offline_env PageLoad fresh_world)) = [].
Proof.
  split.
  - apply (page_load_outcome sample_env fresh_world). repeat split; by eexists.
  - apply (page_load_outcome offline_env fresh_world). reflexivity.
Defined.

(** X17.  The half-hourly reload.  When the request fails, the controller
    and the page stay as they are: the cameras on display are kept.  When it
    is answered, the stored cameras are those of the new response, and the
    configuration, the cycle index and the locks are kept. *)
Theorem reload_outcome (env : Env) (w : World) :
  started (ctl w) = true ->
  let w' := step env ReloadTick w in
  let turf := default undefined_turf (turf_global env) in
  (cameras_response env (sent w) = None -> ctl w' = ctl w ∧ dom w' = dom w)
  ∧ (forall rawCameras,
       cameras_response env (sent w) = Some rawCameras ->
       cameras (ctl w')
       = filterCameras (config (ctl w)) (date_now env)
           (processedCameras turf (date_now env) (municipalityData (ctl w))
                             rawCameras)
       ∧ lastFullUpdate (ctl w') = Some (date_now env)
       ∧ config (ctl w') = config (ctl w)
       ∧ currentCycleIndex (ctl w') = currentCycleIndex (ctl w)
       ∧ lockedCameras (ctl w') = lockedCameras (ctl w)).
Proof.
  intros Hs. simpl. rewrite Hs. unfold eff_catch, loadCameras.
  split.
  - intros ->. done.
  - intros rawCameras ->. simpl.
    match goal with
    | |- context [processCameras env ?t rawCameras ?w2] =>
        destruct (processCameras_result env t rawCameras w2)
          as (_ & Hcams & Hcfg & _ & Hidx & Hlock & _)
    end.
    simpl in *. by rewrite Hcams, Hcfg, Hidx, Hlock.
Qed.

Lemma reload_outcome_witness :
  ctl (step offline_env ReloadTick ready_world) = ctl ready_world
  ∧ dom (step offline_env ReloadTick ready_world) = dom ready_world
  ∧ map presetId
        (cameras (ctl (step mobile_env ReloadTick ready_world)))
    = ["P7"; "P7"; "P8"].
Proof.
  destruct (reload_outcome offline_env ready_world eq_refl) as [Hfail _].
  destruct (reload_outcome mobile_env ready_world eq_refl) as [_ Hok].
  destruct (Hfail eq_refl) as [H1 H2].
  destruct (Hok repeated_response eq_refl) as [H3 _].
  split; [exact H1|]. split; [exact H2|]. rewrite H3. vm_compute. reflexivity.
Defined.

(** X18.  The freshness checkbox filters the last response again and does
    nothing else to the lists: [allCameras] and the selector options stay;
    unchecked, [this.cameras] is a permutation of [allCameras], so every
    camera of the last response is back; checked, every stored camera is
    less than four hours old. *)
Theorem dropOld_change (env : Env) (w : World) (checked : bool) :
  started (ctl w) = true ->
  let w' := step env (DropOldChange checked) w in
  allCameras (ctl w') = allCameras (ctl w)
  ∧ municipalityOptions (dom w') = municipalityOptions (dom w)
  ∧ stationOptions (dom w') = stationOptions (dom w)
  ∧ dropOldCameras (config (ctl w')) = checked
  ∧ (checked = false -> cameras (ctl w') ≡ₚ allCameras (ctl w))
  ∧ (checked = true ->
     forall c, c ∈ cameras (ctl w') <->
       c ∈ allCameras (ctl w)
       ∧ age_below_4h (date_now env) (measuredTime c) = true).
Proof.
  intros Hs. simpl. rewrite Hs. unfold listener.
  match goal with
  | |- context [renderCameras env ?w0] =>
      pose proof (renderCameras_outside env w0) as Hout; set (w1 := w0) in *
  end.
  unfold outside_images in Hout.
  injection Hout as Hcams Hall _ _ _ _ _ _ Hcfg Hm Hst _ _ _ _ _ _.
  rewrite Hcams, Hall, Hcfg, Hm, Hst. subst w1. simpl.
  split; [done|]. split; [done|]. split; [done|]. split; [done|]. split.
  - intros ->. unfold filterCameras. simpl. apply sort_perm.
  - intros -> c. unfold filterCameras. simpl. rewrite sort_perm.
    rewrite list_elem_of_In, filter_In, <- list_elem_of_In.
    by rewrite newer_than_age.
Qed.

Lemma dropOld_change_witness :
  cameras (ctl (step sample_env (DropOldChange false)
                  (with_ctl (set_allCameras sample_cameras) ready_world)))
  ≡ₚ sample_cameras.
Proof.
  destruct (dropOld_change sample_env
              (with_ctl (set_allCameras sample_cameras) ready_world) false
              eq_refl) as (_ & _ & _ & _ & H & _).
  exact (H eq_refl).
Defined.

(** ** The interval selector *)

(** X19.  Whatever the configured interval, after
    [updateCycleTimeOptions] the interval selector does not show an interval
    below the minimum cycle time; its options keep their values and are
    disabled exactly when below the minimum; the warning is shown exactly
    when a selected interval was replaced; and a selector that shows no
    number leaves [config.cyclingInterval] as it is. *)
Theorem updateCycleTimeOptions_selector (w : World) :
  let w' := updateCycleTimeOptions w in
  let minTime := minCycleTime (cameraCount (config (ctl w))) in
  (forall v, intervalValue (dom w') = Some v -> minTime <= v)
  ∧ map fst (intervalOptions (dom w')) = map fst (intervalOptions (dom w))
  ∧ (forall v d, (v, d) ∈ intervalOptions (dom w') ->
       d = true <-> v < minTime)
  ∧ (rateLimitWarning (dom w') = true <->
     exists v, intervalValue (dom w) = Some v ∧ v < minTime)
  ∧ (intervalValue (dom w) = None ->
     cyclingInterval (config (ctl w')) = cyclingInterval (config (ctl w))).
Proof.
  simpl. set (m := minCycleTime _).
  assert (Hopts : forall v d,
    (v, d) ∈ map (fun o : Z * bool => (fst o, fst o <? m))
                 (intervalOptions (dom w)) ->
    d = true <-> v < m).
  { intros v d ([v0 d0] & [= -> ->] & _)%list_elem_of_fmap. simpl.
    apply Z.ltb_lt. }
  assert (Hfst : map fst (map (fun o : Z * bool => (fst o, fst o <? m))
                              (intervalOptions (dom w)))
                 = map fst (intervalOptions (dom w))).
  { rewrite map_map. by apply map_ext. }
  unfold updateCycleTimeOptions. fold m.
  destruct (intervalValue (dom w)) as [v0|] eqn:Hv; simpl.
  - destruct (Z.ltb_spec v0 m) as [Hlt|Hge]; simpl.
    + split; [|split; [done|split; [done|split; [|done]]]].
      * intros v. unfold select_value. destruct (existsb _ _); [|done].
        intros [= <-]. lia.
      * split; [intros _; by exists v0|done].
    + split; [|split; [done|split; [done|split; [|done]]]].
      * intros v [= <-]. lia.
      * split; [done|]. intros (v & [= <-] & Hlt). lia.
  - split; [done|]. split; [done|]. split; [done|]. split; [|done].
    split; [done|]. by intros (v & ? & _).
Qed.

(** * Further properties of the jQuery script *)

Lemma remove_YliIi_length_ind (P : list RawCamera -> Prop) :
  P [] -> (forall a, P [a]) ->
  (forall a b l, P l -> P (b :: l) -> P (a :: b :: l)) ->
  forall l, P l.
Proof.
  intros H0 H1 H2 l.
  assert (H : P l ∧ forall a, P (a :: l)); [|by destruct H].
  induction l as [|b l [IH1 IH2]]; [by split|].
  split; [apply IH2|]. intros a. by apply H2.
Qed.

(** X20.  The loop that drops the Yli-Ii cameras keeps the order of the
    cameras and drops only Yli-Ii cameras; it drops all of them when no
    Yli-Ii camera directly follows another one.  (Of two in a row the second
    is kept: removing the first moves it into the place just visited.) *)
Theorem remove_YliIi_spec (l : list RawCamera) :
  JQuery.remove_YliIi l `sublist_of` l
  ∧ List.filter (fun c => negb (is_YliIi c)) l
      `sublist_of` JQuery.remove_YliIi l
  ∧ (no_YliIi_pair l ->
     JQuery.remove_YliIi l = List.filter (fun c => negb (is_YliIi c)) l).
Proof.
  induction l as [|a|a b l IHl IHbl] using remove_YliIi_length_ind.
  - done.
  - simpl. fold (is_YliIi a). destruct (is_YliIi a); simpl.
    + split; [by constructor|]. done.
    + done.
  - destruct IHl as (IH1 & IH2 & IH3). destruct IHbl as (IHb1 & IHb2 & IHb3).
    change (JQuery.remove_YliIi (a :: b :: l))
      with (if is_YliIi a then b :: JQuery.remove_YliIi l
            else a :: JQuery.remove_YliIi (b :: l)).
    change (List.filter (fun c => negb (is_YliIi c)) (a :: b :: l))
      with (if negb (is_YliIi a)
            then a :: List.filter (fun c => negb (is_YliIi c)) (b :: l)
            else List.filter (fun c => negb (is_YliIi c)) (b :: l)).
    destruct (is_YliIi a) eqn:Ha; simpl.
    + split; [by constructor; constructor|]. split.
      * destruct (is_YliIi b); simpl; by constructor.
      * intros [Hab Hrest]. destruct (is_YliIi b) eqn:Hb; [tauto|]. simpl.
        f_equal. apply IH3. destruct l as [|c l']; [done|].
        by destruct Hrest as [_ ?].
    + split; [by constructor|]. split; [by constructor|].
      intros [_ Hrest]. f_equal. by apply IHb3.
Qed.

Lemma remove_YliIi_spec_witness :
  JQuery.remove_YliIi
    [sample_station "Tie_4_Yli-Ii" []; sample_station "Tie_22_Oulu_" [];
     sample_station "Tie_20_Yli-Ii" []]
  = [sample_station "Tie_22_Oulu_" []].
Proof.
  destruct (remove_YliIi_spec
              [sample_station "Tie_4_Yli-Ii" [];
               sample_station "Tie_22_Oulu_" [];
               sample_station "Tie_20_Yli-Ii" []]) as (_ & _ & H).
  rewrite H; [reflexivity|].
  simpl. repeat split; intros [H1 H2]; vm_compute in H1, H2; discriminate.
Defined.

(** X21.  The [success] handler called for a window of four,
    [conditionalRender(s, s + 4)] with [s >= 0]: tile [t] (1 to 4) shows the
    fresh camera at index [s + t - 1] when there is one; from the first
    missing camera on the handler has thrown and the tiles keep what they
    showed.  No other tile is touched. *)
Theorem success_tiles (now : Z) (cameraArray : list RawCamera) (s : Z)
    (p : JQuery.Page) (t : Z) :
  let shown := JQuery.camerasInOulu_noOld now cameraArray in
  let p' := JQuery.success now cameraArray s (s + 4) p in
  0 <= s ->
  JQuery.tiles p' !! t
  = if bool_decide (1 <= t <= 4 ∧ s + t - 1 < Z.of_nat (length shown))
    then shown !! Z.to_nat (s + t - 1)
    else JQuery.tiles p !! t.
Proof.
  intros shown p' Hs. subst p'. unfold JQuery.success. fold shown.
  replace (s + 4 - s + 7) with 11 by lia.
  change (seqZ 0 (11 / 8)) with [0]. simpl map.
  set (q := JQuery.setItem _ _ p).
  change (JQuery.tiles p !! t) with (JQuery.tiles q !! t).
  replace (s + 8 * 0) with s by lia.
  assert (Hfst : forall r,
    JQuery.show_windows shown [s] r
    = fst (JQuery.show_tiles shown [1; 2; 3; 4] s r)).
  { intros r. unfold JQuery.show_windows.
    by destruct (JQuery.show_tiles shown [1; 2; 3; 4] s r) as [r' []]. }
  rewrite Hfst. clearbody q. clear Hfst.
  assert (Hidx : forall z, 0 <= z -> JS.index shown z = shown !! Z.to_nat z).
  { intros z Hz. unfold JS.index. by destruct (Z.ltb_spec z 0); [lia|]. }
  unfold JQuery.show_tiles. rewrite !Hidx by lia.
  destruct (shown !! Z.to_nat s) as [c0|] eqn:E0;
    [destruct (shown !! Z.to_nat (s + 1)) as [c1|] eqn:E1;
     [destruct (shown !! Z.to_nat (s + 1 + 1)) as [c2|] eqn:E2;
      [destruct (shown !! Z.to_nat (s + 1 + 1 + 1)) as [c3|] eqn:E3|]|]|];
    simpl;
    repeat match goal with
           | H : _ !! _ = Some _ |- _ =>
               let H' := fresh in
               pose proof (lookup_lt_Some _ _ _ H) as H'; revert H
           | H : _ !! _ = None |- _ =>
               let H' := fresh in
               pose proof (lookup_ge_None_1 _ _ H) as H'; revert H
           end; intros;
    (destruct (decide (t = 1)) as [->|];
     [|destruct (decide (t = 2)) as [->|];
       [|destruct (decide (t = 3)) as [->|];
         [|destruct (decide (t = 4)) as [->|]]]]);
    case_bool_decide as Ht; try lia;
    repeat (first [rewrite lookup_insert_eq
                  |rewrite lookup_insert_ne by lia]);
    first [ done
          | symmetry;
            match goal with
            | E : shown !! ?k = Some ?c |- shown !! ?k' = Some ?c =>
                replace k' with k by lia; exact E
            end ].
Qed.

Example success_tiles_sample :
  map (fun t => rp_presetId <$> JQuery.tiles
                  (JQuery.success sample_now six_cameras 4 8 empty_page) !! t)
      [1; 2; 3; 4]
  = [Some "E"; Some "F"; None; None].
Proof. vm_compute. reflexivity. Qed.

Lemma success_tiles_witness :
  JQuery.tiles (JQuery.success sample_now six_cameras 4 (4 + 4) empty_page) !! 2
  = JQuery.camerasInOulu_noOld sample_now six_cameras !! Z.to_nat (4 + 2 - 1)
  ∧ JQuery.tiles (JQuery.success sample_now six_cameras 4 (4 + 4) empty_page)
      !! 3 = None.
Proof.
  split.
  - rewrite (success_tiles sample_now six_cameras 4 empty_page 2) by lia.
    reflexivity.
  - rewrite (success_tiles sample_now six_cameras 4 empty_page 3) by lia.
    reflexivity.
Defined.

Lemma conditionalRender_requests env s e p :
  length (requests (JQuery.page_browser (JQuery.conditionalRender env s e p)))
  = S (length (requests (JQuery.page_browser p))).
Proof.
  unfold JQuery.conditionalRender.
  destruct (cameras_response env _); simpl.
  - unfold JQuery.success. rewrite show_windows_browser. simpl.
    rewrite length_app. simpl. lia.
  - rewrite length_app. simpl. lia.
Qed.

(** X22.  The loop of [onpageload] keeps its window aligned: after any
    number of turns [end = start + 4] and [start] is a multiple of four that
    is not negative (at least four once a turn has run); and every turn
    sends exactly one request. *)
Theorem onpageload_aligned (env : Env) (k : nat) (p : JQuery.Page) :
  let '(start, end_, p') := onpageload_turns env k p in
  end_ = start + 4 ∧ 0 <= start ∧ start `mod` 4 = 0
  ∧ ((0 < k)%nat -> 4 <= start)
  ∧ length (requests (JQuery.page_browser p'))
    = (length (requests (JQuery.page_browser p)) + k)%nat.
Proof.
  unfold onpageload_turns. induction k as [|k IH]; simpl.
  - repeat split; try done; lia.
  - destruct (Nat.iter k (JQuery.onpageload_turn env) (0, 4, p))
      as [[start end_] p'].
    destruct IH as (He & Hs & Hm & _ & Hr).
    unfold JQuery.onpageload_turn, JQuery.window.
    destruct (JQuery.stored_le _ end_).
    + rewrite conditionalRender_requests, Hr.
      repeat split; try done; lia.
    + rewrite conditionalRender_requests, Hr. subst end_.
      repeat split; try lia.
      rewrite Z.add_mod, Hm by lia. done.
Qed.

Example onpageload_windows_sample :
  map (fun k => fst (onpageload_turns six_env k empty_page)) [0; 1; 2; 3]%nat
  = [(0, 4); (4, 8); (4, 8); (4, 8)].
Proof. vm_compute. reflexivity. Qed.




(** * Further properties: the age label and the selector lists *)

(** X24.  The age label.  For a timestamp that is not ahead of the clock the
    label counts whole hours [h] and whole minutes [m] below sixty, with
    [h] hours and [m] minutes not more than the age and the next minute
    more, and it names the hours only from one hour on.  For a timestamp
    ahead of the clock the label has no hours and a minute count from -60
    to 0. *)
Theorem getImageAge_label (now t : Z) :
  (t <= now ->
   exists h m,
     0 <= h ∧ 0 <= m < 60
     ∧ h * 3600000 + m * 60000 <= now - t < h * 3600000 + (m + 1) * 60000
     ∧ getImageAge now (Some t)
       = if decide (h = 0) then pretty m +:+ "m ago"
         else pretty h +:+ "h " +:+ pretty m +:+ "m ago")
  ∧ (now < t ->
     exists m, -60 <= m <= 0
               ∧ getImageAge now (Some t) = pretty m +:+ "m ago").
Proof.
  unfold getImageAge, JS.rem.
  change (1000 * 60 * 60) with 3600000. change (1000 * 60) with 60000.
  set (d := now - t). split.
  - intros Hle. assert (Hd : 0 <= d) by (subst d; lia).
    rewrite Z.rem_mod_nonneg by lia.
    exists (d / 3600000), (d `mod` 3600000 / 60000).
    pose proof (Z.mod_pos_bound d 3600000 ltac:(lia)) as Hm.
    pose proof (Z_div_mod_eq_full d 3600000) as Hdm.
    pose proof (Z.div_pos d 3600000 Hd ltac:(lia)) as Hh.
    pose proof (Z.mul_div_le (d `mod` 3600000) 60000 ltac:(lia)) as Hlo.
    pose proof (Z.mul_succ_div_gt (d `mod` 3600000) 60000 ltac:(lia)) as Hhi.
    pose proof (Z.div_pos (d `mod` 3600000) 60000 ltac:(lia) ltac:(lia)).
    pose proof (Z.div_lt_upper_bound (d `mod` 3600000) 60000 60
                  ltac:(lia) ltac:(lia)).
    split; [done|]. split; [lia|]. split; [lia|].
    destruct (Z.ltb_spec 0 (d / 3600000)); destruct (decide (d / 3600000 = 0));
      try done; lia.
  - intros Hlt. assert (Hd : d < 0) by (subst d; lia).
    exists (Z.rem d 3600000 / 60000).
    pose proof (Z.rem_bound_pos_neg d 3600000 ltac:(lia) ltac:(lia)) as Hr.
    pose proof (Z.div_lt_upper_bound d 3600000 0 ltac:(lia) ltac:(lia)) as Hh.
    pose proof (Z.div_le_lower_bound (Z.rem d 3600000) 60000 (-60)
                  ltac:(lia) ltac:(lia)).
    pose proof (Z.div_le_upper_bound (Z.rem d 3600000) 60000 0
                  ltac:(lia) ltac:(lia)).
    split; [lia|].
    destruct (Z.ltb_spec 0 (d / 3600000)); [lia|done].
Qed.

Lemma getImageAge_label_witness :
  (exists h m,
     0 <= h ∧ 0 <= m < 60
     ∧ h * 3600000 + m * 60000 <= sample_now - (sample_now - 18065000)
       < h * 3600000 + (m + 1) * 60000
     ∧ getImageAge sample_now (Some (sample_now - 18065000))
       = if decide (h = 0) then pretty m +:+ "m ago"
         else pretty h +:+ "h " +:+ pretty m +:+ "m ago")
  ∧ exists m, -60 <= m <= 0
              ∧ getImageAge sample_now (Some (sample_now + 65000))
                = pretty m +:+ "m ago".
Proof.
  split.
  - apply (getImageAge_label sample_now (sample_now - 18065000)).
    unfold sample_now. lia.
  - apply (getImageAge_label sample_now (sample_now + 65000)).
    unfold sample_now. lia.
Defined.

(** The order of strings is transitive. *)
Lemma ascii_compare_N (a b : ascii) :
  Ascii.compare a b = N.compare (N_of_ascii a) (N_of_ascii b).
Proof. reflexivity. Qed.

Lemma string_compare_trans (c : comparison) (s1 s2 s3 : string) :
  String.compare s1 s2 = c -> String.compare s2 s3 = c ->
  String.compare s1 s3 = c.
Proof.
  revert s2 s3. induction s1 as [|a1 s1 IH]; intros [|a2 s2] [|a3 s3];
    simpl; try congruence.
  rewrite !ascii_compare_N.
  destruct (N.compare_spec (N_of_ascii a1) (N_of_ascii a2)) as [E12|L12|G12];
    destruct (N.compare_spec (N_of_ascii a2) (N_of_ascii a3)) as [E23|L23|G23];
    destruct (N.compare_spec (N_of_ascii a1) (N_of_ascii a3)) as [E13|L13|G13];
    try congruence; try lia; try apply IH.
Qed.

Lemma string_le_trans (s1 s2 s3 : string) :
  string_le s1 s2 -> string_le s2 s3 -> string_le s1 s3.
Proof.
  unfold string_le, String.leb. intros H12 H23.
  destruct (String.compare s1 s2) eqn:E12; [|clear H12|done].
  - apply String.compare_eq_iff in E12. by subst.
  - destruct (String.compare s2 s3) eqn:E23; [| |done].
    + apply String.compare_eq_iff in E23. subst. by rewrite E12.
    + by rewrite (string_compare_trans Lt s1 s2 s3).
Qed.

(** X25.  [populateSelectors] rebuilds the two selector lists from
    [this.cameras] and changes nothing else.  After the fixed first option
    the municipality selector lists exactly the municipalities of the
    stored cameras, each once and in ascending order, with the name as its
    text; the station selector lists exactly their station names, each once
    and in ascending order, with the underscores of the name replaced in
    the text.  The controller, the browser, the grid, the interval selector
    and the warning are as before. *)
Theorem populateSelectors_sorted (w : World) :
  let w' := populateSelectors w in
  (head (municipalityOptions (dom w'))
   = Some (EmptyString, "All Municipalities")
   ∧ StronglySorted string_le (listed_names (municipalityOptions (dom w')))
   ∧ NoDup (listed_names (municipalityOptions (dom w')))
   ∧ (forall m, m ∈ listed_names (municipalityOptions (dom w'))
                <-> m ∈ map municipality (cameras (ctl w)))
   ∧ forall m text, (m, text) ∈ tail (municipalityOptions (dom w')) ->
       text = m)
  ∧ (head (stationOptions (dom w')) = Some (EmptyString, "All Stations")
     ∧ StronglySorted string_le (listed_names (stationOptions (dom w')))
     ∧ NoDup (listed_names (stationOptions (dom w')))
     ∧ (forall s, s ∈ listed_names (stationOptions (dom w'))
                  <-> s ∈ map stationName (cameras (ctl w)))
     ∧ forall s text, (s, text) ∈ tail (stationOptions (dom w')) ->
         text = JS.replace_underscores s)
  ∧ ctl w' = ctl w ∧ browser w' = browser w
  ∧ cameraGrid (dom w') = cameraGrid (dom w)
  ∧ intervalOptions (dom w') = intervalOptions (dom w)
  ∧ intervalValue (dom w') = intervalValue (dom w)
  ∧ rateLimitWarning (dom w') = rateLimitWarning (dom w).
Proof.
  assert (Hsorted : forall l,
    StronglySorted string_le (JS.sort_strings l)).
  { intros l. unfold JS.sort_strings.
    apply (sort_sorted String.leb (fun _ => True) string_le).
    - by intros x y _ _.
    - intros x y _ _ H. unfold string_le.
      by destruct (String.leb_total x y) as [Hxy|Hyx]; [congruence|].
    - apply string_le_trans.
    - by apply Forall_forall. }
  simpl. unfold listed_names. simpl. rewrite !map_map. simpl. rewrite !map_id.
  destruct (sorted_names_spec (map municipality (cameras (ctl w))))
    as [Hnd1 Hin1].
  destruct (sorted_names_spec (map stationName (cameras (ctl w))))
    as [Hnd2 Hin2].
  split; [|split; [|done]].
  - repeat split; try done; try apply Hsorted; try apply Hin1.
    by intros m text (m0 & [= -> ->] & _)%list_elem_of_fmap.
  - repeat split; try done; try apply Hsorted; try apply Hin2.
    by intros s text (s0 & [= -> ->] & _)%list_elem_of_fmap.
Qed.

(** * Invariants over the events *)

Lemma outside_images_fields w w' :
  outside_images w' = outside_images w ->
  cameras (ctl w') = cameras (ctl w)
  ∧ allCameras (ctl w') = allCameras (ctl w)
  ∧ currentCycleIndex (ctl w') = currentCycleIndex (ctl w)
  ∧ config (ctl w') = config (ctl w)
  ∧ intervalOptions (dom w') = intervalOptions (dom w)
  ∧ intervalValue (dom w') = intervalValue (dom w).
Proof.
  unfold outside_images. intros [= -> -> _ -> _ _ _ _ -> _ _ -> -> _ _ _ _].
  done.
Qed.

Ltac frame_with lem :=
  let Ha := fresh in let Hb := fresh in let Hc := fresh in
  let Hd := fresh in let He := fresh in let Hf := fresh in
  destruct (outside_images_fields _ _ lem) as (Ha & Hb & Hc & Hd & He & Hf);
  rewrite ?Ha, ?Hb, ?Hc, ?Hd, ?He, ?Hf;
  clear Ha Hb Hc Hd He Hf.

Ltac frame_out :=
  repeat match goal with
         | |- context [renderCameras ?e ?w0] =>
             progress frame_with (renderCameras_outside e w0)
         | |- context [loadCameraImages ?e ?w0] =>
             progress frame_with (loadCameraImages_outside e w0)
         | |- context [updateCameraImages ?e ?w0] =>
             progress frame_with (updateCameraImages_outside e w0)
         end.

Lemma setupMobileRestrictions_outside env w :
  outside_images (setupMobileRestrictions env w)
  = outside_images
      (if isMobile (ctl w) && (8 <? cameraCount (config (ctl w)))
       then with_config (set_cameraCount 8) w else w).
Proof.
  unfold setupMobileRestrictions. destruct (isMobile (ctl w)); simpl; [|done].
  destruct (8 <? _); [|done]. apply renderCameras_outside.
Qed.

Lemma filterCameras_subset config now l c :
  c ∈ filterCameras config now l -> c ∈ l.
Proof.
  unfold filterCameras. rewrite sort_perm.
  destruct (dropOldCameras config); [|done].
  intros [? _]%list_elem_of_In%filter_In. by apply list_elem_of_In.
Qed.

Lemma step_cameras_frame env ev w :
  ev ≠ PageLoad -> ev ≠ ReloadTick ->
  (forall b, ev ≠ DropOldChange b) ->
  cameras (ctl (step env ev w)) = cameras (ctl w)
  ∧ allCameras (ctl (step env ev w)) = allCameras (ctl w).
Proof.
  intros H1 H2 H3.
  destruct ev as [| | | | |v| |v|v|v|v|b|j|]; try done; unfold step;
    try (destruct (started (ctl w)); [|done]); unfold listener.
  - destruct (cycling _); [|done]. unfold cycleCameras.
    destruct (_ =? 0); [done|]. by frame_out.
  - by frame_out.
  - done.
  - frame_out. unfold updateCycleTimeOptions.
    by destruct (nan_lt _ _).
  - by destruct (cycling (config (ctl w))).
  - simpl. by destruct (cycling (config (ctl w))).
  - by frame_out.
  - by frame_out.
  - by frame_out.
  - by destruct (H3 b).
  - unfold toggleCameraLock.
    destruct (cameraGrid (dom w) !! j) as [[| |c|]|]; try done;
      by destruct (bool_decide (j ∈ lockedCameras (ctl w))).
  - simpl. destruct (Bool.eqb _ _); [done|]. frame_out.
    frame_with (setupMobileRestrictions_outside env
      (with_ctl
          (fun c =>
             {| cameras := cameras c; allCameras := allCameras c;
                municipalityData := municipalityData c;
                currentImages := currentImages c;
                currentCycleIndex := currentCycleIndex c;
                lockedCameras := lockedCameras c;
                lastFullUpdate := lastFullUpdate c;
                isMobile := detect_mobile env; started := started c;
                config := config c |})
          w)).
    simpl. by destruct (_ && _).
Qed.

Lemma init_fields env w :
  let w0 := with_ctl (fun _ => new_controller (detect_mobile env)) w in
  currentCycleIndex (ctl (init env w0)) = 0
  ∧ cameraCount (config (ctl (init env w0))) = 4
  ∧ forall c, c ∈ cameras (ctl (init env w0)) ->
              c ∈ allCameras (ctl (init env w0)).
Proof.
  simpl. unfold init. destruct (turf_global env) as [turf|].
  2: { repeat split; try done; intros c Hc; by apply elem_of_nil in Hc. }
  unfold eff_catch, eff_bind, loadMunicipalityData.
  destruct (geojson_response env _); simpl.
  2: { repeat split; try done; intros c Hc; by apply elem_of_nil in Hc. }
  unfold loadCameras. destruct (cameras_response env _); simpl.
  2: { repeat split; try done; intros c Hc; by apply elem_of_nil in Hc. }
  unfold eff_do. simpl.
  match goal with
  | |- context [setupMobileRestrictions env ?w1] =>
      frame_with (setupMobileRestrictions_outside env w1);
      assert (Hcfg : config (ctl w1) = initial_config);
      [|assert (Hidx : currentCycleIndex (ctl w1) = 0)]
  end.
  - simpl. unfold processCameras. by frame_out.
  - simpl. unfold processCameras. by frame_out.
  - simpl. simpl in Hcfg, Hidx. rewrite Hcfg. simpl.
    rewrite Bool.andb_false_r. simpl. rewrite Hidx, Hcfg.
    repeat split; try done.
    unfold processCameras. frame_out. simpl. intros c.
    apply filterCameras_subset.
Qed.

(** X26.  The stored cameras always come from the last response: if every
    camera of [this.cameras] is in [this.allCameras], this is so after any
    event, hence after any sequence of events. *)
Theorem cameras_from_response_invariant (env : Env) (evs : list Event)
    (w : World) :
  cameras_from_response w -> cameras_from_response (run env evs w).
Proof.
  unfold run. revert w. induction evs as [|ev evs IH]; intros w Hw; [done|].
  simpl. apply IH. clear IH. unfold cameras_from_response in *.
  destruct ev as [| | | | |v| |v|v|v|v|b|j|];
    try (match goal with
         | |- context [step env ?ev w] =>
             destruct (step_cameras_frame env ev w) as [-> ->]; done
         end).
  - simpl. apply init_fields.
  - simpl. destruct (started (ctl w)); [|done].
    unfold eff_catch, loadCameras.
    destruct (cameras_response env _); simpl; [|done].
    unfold processCameras. frame_out. simpl.
    intros c. apply filterCameras_subset.
  - simpl. destruct (started (ctl w)); [|done]. frame_out. simpl.
    intros c. apply filterCameras_subset.
Qed.

Example index_trace_sample :
  map (fun k =>
         currentCycleIndex
           (ctl (run camera_env (take k some_events) loaded_world)))
      (seq 0 15)
  = [0; 0; 0; 4; 2; 2; 2; 2; 2; 4; 4; 4; 4; 4; 6]
  ∧ map presetId (cameras (ctl (run camera_env some_events loaded_world)))
    = ["A"; "B"; "C"; "D"; "E"; "F"; "Old"]
  ∧ map presetId (cameras (ctl loaded_world))
    = ["A"; "B"; "C"; "D"; "E"; "F"]
  ∧ map presetId (allCameras (ctl loaded_world))
    = ["Old"; "A"; "B"; "C"; "D"; "E"; "F"].
Proof. vm_compute. repeat split; reflexivity. Qed.

Lemma cameras_from_response_invariant_witness :
  length (cameras (ctl loaded_world)) = 6%nat
  ∧ length (allCameras (ctl loaded_world)) = 7%nat
  ∧ length (cameras (ctl (run camera_env some_events loaded_world))) = 7%nat
  ∧ cameras_from_response (run camera_env some_events loaded_world).
Proof.
  split; [vm_compute; reflexivity|]. split; [vm_compute; reflexivity|].
  split; [vm_compute; reflexivity|].
  apply cameras_from_response_invariant.
  intros c Hc.
  assert (Hsub : cameras (ctl loaded_world)
                 = tail (allCameras (ctl loaded_world)))
    by (vm_compute; reflexivity).
  rewrite Hsub in Hc.
  destruct (allCameras (ctl loaded_world)) as [|c0 l]; [done|].
  simpl in Hc. by apply elem_of_cons; right.
Defined.

Lemma step_index_nonneg env ev w :
  count_event_ok ev -> index_and_count_nonneg w ->
  index_and_count_nonneg (step env ev w).
Proof.
  unfold index_and_count_nonneg. intros Hev [Hi Hc].
  destruct ev as [| | | | |v| |v|v|v|v|b|j|]; unfold step;
    try (destruct (started (ctl w)); [|done]); unfold listener.
  - destruct (init_fields env w) as (Hidx & Hcount & _). simpl in Hidx, Hcount.
    rewrite Hidx, Hcount. lia.
  - destruct (cycling _); [|done].
    destruct (cycleCameras_nonneg env w Hi Hc) as [? ->]. done.
  - by frame_out.
  - unfold eff_catch, loadCameras.
    destruct (cameras_response env _); simpl; [|done].
    unfold processCameras. by frame_out.
  - done.
  - frame_out. unfold updateCycleTimeOptions.
    by destruct (nan_lt _ _).
  - by destruct (cycling (config (ctl w))).
  - simpl. by destruct (cycling (config (ctl w))).
  - by frame_out.
  - by frame_out.
  - by frame_out.
  - by frame_out.
  - unfold toggleCameraLock.
    destruct (cameraGrid (dom w) !! j) as [[| |c|]|]; try done;
      by destruct (bool_decide (j ∈ lockedCameras (ctl w))).
  - simpl. destruct (Bool.eqb _ _); [done|]. frame_out.
    match goal with
    | |- context [setupMobileRestrictions env ?w1] =>
        frame_with (setupMobileRestrictions_outside env w1)
    end.
    simpl. destruct (_ && _); simpl; [lia|done].
Qed.

(** X27.  The cycle index and the camera count never become negative: if
    neither is negative and no camera-count change asks for a negative
    number, neither is negative after any sequence of events. *)
Theorem index_and_count_nonneg_invariant (env : Env) (evs : list Event)
    (w : World) :
  Forall count_event_ok evs ->
  index_and_count_nonneg w -> index_and_count_nonneg (run env evs w).
Proof.
  unfold run. intros Hevs. revert w.
  induction Hevs as [|ev evs Hev _ IH]; intros w Hw; [done|].
  simpl. apply IH. by apply step_index_nonneg.
Qed.

Lemma index_and_count_nonneg_invariant_witness :
  currentCycleIndex (ctl (run camera_env some_events loaded_world)) = 6
  ∧ cameraCount (config (ctl (run camera_env some_events loaded_world))) = 2
  ∧ index_and_count_nonneg (run camera_env some_events loaded_world).
Proof.
  split; [vm_compute; reflexivity|]. split; [vm_compute; reflexivity|].
  apply index_and_count_nonneg_invariant.
  - unfold some_events.
    repeat (apply List.Forall_cons; [simpl; lia || exact I|]).
    apply List.Forall_nil.
  - unfold index_and_count_nonneg.
    assert (Hi : currentCycleIndex (ctl loaded_world) = 0)
      by (vm_compute; reflexivity).
    assert (Hn : cameraCount (config (ctl loaded_world)) = 4)
      by (vm_compute; reflexivity).
    rewrite Hi, Hn. lia.
Defined.

Lemma step_interval_in_sync env ev w :
  ev ≠ PageLoad -> offers_minimums w -> interval_in_sync w ->
  offers_minimums (step env ev w) ∧ interval_in_sync (step env ev w).
Proof.
  unfold offers_minimums, interval_in_sync. intros Hev Hmin Hsync.
  destruct ev as [| | | | |v| |v|v|v|v|b|j|]; try done; unfold step;
    try (destruct (started (ctl w)); [|done]); unfold listener.
  - destruct (cycling _); [|done]. unfold cycleCameras.
    destruct (_ =? 0); [done|]. by frame_out.
  - by frame_out.
  - unfold eff_catch, loadCameras.
    destruct (cameras_response env _); simpl; [|done].
    unfold processCameras. by frame_out.
  - done.
  - frame_out.
    set (w1 := with_config (set_cameraCount v) w).
    assert (Hkeys : map fst (intervalOptions (dom (updateCycleTimeOptions w1)))
                    = map fst (intervalOptions (dom w))).
    { unfold updateCycleTimeOptions.
      destruct (nan_lt _ _); simpl; rewrite map_map; by apply map_ext. }
    rewrite Hkeys. split; [done|].
    by apply (proj2 (interval_in_sync_preserved env w1)).
  - by destruct (cycling (config (ctl w))).
  - simpl. by destruct (cycling (config (ctl w))).
  - by frame_out.
  - by frame_out.
  - by frame_out.
  - by frame_out.
  - unfold toggleCameraLock.
    destruct (cameraGrid (dom w) !! j) as [[| |c|]|]; try done;
      by destruct (bool_decide (j ∈ lockedCameras (ctl w))).
  - simpl. destruct (Bool.eqb _ _); [done|]. frame_out.
    match goal with
    | |- context [setupMobileRestrictions env ?w1] =>
        frame_with (setupMobileRestrictions_outside env w1)
    end.
    simpl. by destruct (_ && _).
Qed.

(** X28.  The interval selector and [config.cyclingInterval] stay equal: on
    a page that offers every minimum cycle time as an interval, if the
    selector shows the configured interval, it still does after any
    sequence of timer and user events. *)
Theorem interval_in_sync_invariant (env : Env) (evs : list Event)
    (w : World) :
  PageLoad ∉ evs -> offers_minimums w -> interval_in_sync w ->
  offers_minimums (run env evs w) ∧ interval_in_sync (run env evs w).
Proof.
  unfold run. revert w. induction evs as [|ev evs IH]; intros w Hno Hmin Hsync;
    [done|].
  apply not_elem_of_cons in Hno as [Hev Hno].
  destruct (step_interval_in_sync env ev w) as [Hmin' Hsync']; [done..|].
  simpl. by apply IH.
Qed.

Lemma minCycleTime_values (count : Z) :
  minCycleTime count ∈ [2000; 3000; 5000; 8000; 10000; 15000; 20000].
Proof.
  destruct minCycleTime_table as (H1 & H2 & H4 & H6 & H8 & H12 & H16 & Hrest).
  destruct (decide (count ∈ [1; 2; 4; 6; 8; 12; 16])) as [Hin|Hout].
  - rewrite !elem_of_cons in Hin.
    destruct Hin as [-> | [-> | [-> | [-> | [-> | [-> | [-> | Hin]]]]]]];
      [rewrite H1|rewrite H2|rewrite H4|rewrite H6|rewrite H8|rewrite H12
      |rewrite H16|by apply elem_of_nil in Hin];
      rewrite !elem_of_cons; tauto.
  - rewrite (Hrest count Hout). rewrite !elem_of_cons. tauto.
Qed.


Lemma interval_in_sync_invariant_witness :
  offers_minimums (run sample_env some_events ready_world)
  ∧ interval_in_sync (run sample_env some_events ready_world).
Proof.
  apply interval_in_sync_invariant.
  - unfold some_events. rewrite !not_elem_of_cons.
    repeat (split; [discriminate|]). apply not_elem_of_nil.
  - intros count. generalize (minCycleTime_values count).
    generalize (minCycleTime count). intros z Hz.
    change (z ∈ [2000; 3000; 5000; 8000; 10000; 15000; 20000; 30000]).
    rewrite !elem_of_cons in *. tauto.
  - reflexivity.
Defined.
